(** * The MQTT wire codec of the broker (src/mqtt.c), embedded in Rocq

    The decoders of [mqtt.c] are translated function by function.  C integers
    are [Z] with their wrap-around written out (LP64: [size_t] and
    [unsigned long long] are 64 bits wide, [int] is 32 bits wide), a buffer
    behind a [const unsigned char *] cursor is the list of the bytes from the
    cursor on, and a decoder is a function from that list to an [outcome]
    carrying the decoded value and the bytes left. *)

From Stdlib Require Import ZArith Lia List.
From Stdlib.Strings Require Import Byte.
From stdpp Require Import base option list gmap.

Local Open Scope Z_scope.

(** ** C integers and bytes *)

Module CInt.

(** An unsigned integer of [w] bits. *)
Definition wrap_unsigned (w x : Z) : Z := x mod 2 ^ w.

(** A signed integer of [w] bits (two's complement). *)
Definition wrap_signed (w x : Z) : Z := (x + 2 ^ (w - 1)) mod 2 ^ w - 2 ^ (w - 1).

Definition uint16 : Z -> Z := wrap_unsigned 16.
Definition uint64 : Z -> Z := wrap_unsigned 64.
Definition int32 : Z -> Z := wrap_signed 32.

(** [unsigned char] to integer. *)
Definition of_byte (b : byte) : Z := Z.of_N (Byte.to_N b).

(** Plain [char] to integer, for a target where [char] is signed. *)
Definition of_char (b : byte) : Z := wrap_signed 8 (of_byte b).

(** Integer to [unsigned char] (conversion keeps the low 8 bits). *)
Definition to_byte (z : Z) : byte :=
  default "000"%byte (Byte.of_N (Z.to_N (z mod 256))).

Definition bytes_of (l : list Z) : list byte := map to_byte l.

End CInt.

Import CInt.

(** ** Results of a decoder *)

(** The error kinds the specification names. *)
Inductive mqtt_error : Set :=
| ShortBuffer
| MalformedVarint
| LengthTooLarge
| ProtocolViolation
| UnknownPacketType
| InflightExhausted
| MaxRequestSize
| AuthFailed.

(** What the C code does without defining it: a read through the cursor
    behind the last byte of the buffer, a call through a NULL entry of the
    handler table, an index behind the last entry of the handler table. *)
Inductive undefined : Set :=
| ReadPastEnd
| NullHandler
| TableOutOfRange.

Inductive outcome (A : Type) : Type :=
| Done (a : A)
| Fail (e : mqtt_error)
| Undef (u : undefined)
| OutOfFuel.

Arguments Done {A} a.
Arguments Fail {A} e.
Arguments Undef {A} u.
Arguments OutOfFuel {A}.

(** A decoder over a cursor: the bytes from the cursor on go in, the value
    and the bytes from the advanced cursor on come out. *)
Definition reader (A : Type) : Type := list byte -> outcome (A * list byte).

#[export] Instance reader_ret : MRet reader :=
  fun A a buf => Done (a, buf).

#[export] Instance reader_bind : MBind reader :=
  fun A B f m buf =>
    match m buf with
    | Done (a, buf') => f a buf'
    | Fail e => Fail e
    | Undef u => Undef u
    | OutOfFuel => OutOfFuel
    end.

(** ** Byte codec primitives (pack.h) *)

Module Pack.

(** Modelled from the spec: [unpack_u8] of pack.h, which is not among the
    sources.  Reads one byte; fails with [ShortBuffer] when the cursor would
    advance past the end. *)
Definition unpack_u8 : reader Z :=
  fun buf =>
    match buf with
    | b :: buf' => Done (of_byte b, buf')
    | [] => Fail ShortBuffer
    end.

(** Modelled from the spec: [unpack_u16] of pack.h, which is not among the
    sources.  Reads an unsigned 16-bit integer in network byte order; fails
    with [ShortBuffer] when the cursor would advance past the end. *)
Definition unpack_u16 : reader Z :=
  fun buf =>
    match buf with
    | hi :: lo :: buf' => Done (Z.lor (Z.shiftl (of_byte hi) 8) (of_byte lo), buf')
    | _ => Fail ShortBuffer
    end.

(** Modelled from the spec: [unpack_bytes] of pack.h, which is not among the
    sources.  Reads a byte sequence of the given length; fails with
    [ShortBuffer] when the cursor would advance past the end. *)
Definition unpack_bytes (len : Z) : reader (list byte) :=
  fun buf =>
    if (Z.of_nat (length buf) <? len)%Z then Fail ShortBuffer
    else Done (take (Z.to_nat len) buf, drop (Z.to_nat len) buf).

End Pack.

Import Pack.

(** ** Remaining Length *)

Module Mqtt.

(** [static const int MAX_LEN_BYTES = 4;] *)
Definition MAX_LEN_BYTES : Z := 4.

(** The do-while loop of [mqtt_encode_length].  [buf] holds the bytes
    written so far ([buf[0]] to [buf[bytes - 1]]), [len] is a [size_t].
    [fuel] bounds the number of iterations; [None] is fuel running out. *)
Fixpoint encode_length_loop (fuel : nat) (buf : list byte) (bytes len : Z)
  : option (Z * list byte) :=
  match fuel with
  | O => None
  | S fuel' =>
      if bytes + 1 >? MAX_LEN_BYTES then Some (bytes, buf)
      else
        let d := len mod 128 in
        let len := len / 128 in
        let d := if len >? 0 then Z.lor d 128 else d in
        let buf := buf ++ [to_byte d] in
        let bytes := bytes + 1 in
        if len >? 0 then encode_length_loop fuel' buf bytes len
        else Some (bytes, buf)
  end.

(** [int mqtt_encode_length(unsigned char *buf, size_t len)]: the number of
    bytes written and the bytes written. *)
Definition mqtt_encode_length (len : Z) : option (Z * list byte) :=
  encode_length_loop (Z.to_nat (MAX_LEN_BYTES + 1)) [] 0 (uint64 len).

(** The do-while loop of [mqtt_decode_length]: [char c], [int multiplier],
    [unsigned long long value]. *)
Fixpoint decode_length_loop (multiplier value : Z) (buf : list byte)
  : outcome (Z * list byte) :=
  match buf with
  | [] => Undef ReadPastEnd
  | b :: buf' =>
      let c := of_char b in
      let value := uint64 (value + uint64 (int32 (Z.land c 127 * multiplier))) in
      let multiplier := int32 (multiplier * 128) in
      if negb (Z.land c 128 =? 0) then decode_length_loop multiplier value buf'
      else Done (value, buf')
  end.

(** [unsigned long long mqtt_decode_length(const unsigned char **buf)] *)
Definition mqtt_decode_length : reader Z := decode_length_loop 1 0.


(** ** Packets (mqtt.h) *)

(** Modelled from the spec: the control packet type numbers of mqtt.h,
    which is not among the sources. *)
Definition CONNECT : Z := 1.
Definition CONNACK : Z := 2.
Definition PUBLISH : Z := 3.
Definition PUBACK : Z := 4.
Definition PUBREC : Z := 5.
Definition PUBREL : Z := 6.
Definition PUBCOMP : Z := 7.
Definition SUBSCRIBE : Z := 8.
Definition SUBACK : Z := 9.
Definition UNSUBSCRIBE : Z := 10.
Definition UNSUBACK : Z := 11.
Definition PINGREQ : Z := 12.
Definition PINGRESP : Z := 13.
Definition DISCONNECT : Z := 14.

(** Modelled from the spec: the QoS levels of mqtt.h. *)
Definition AT_MOST_ONCE : Z := 0.

(** Modelled from the spec: [union mqtt_header] of mqtt.h, one byte read
    either whole or through its bit fields: type (4 bits), DUP (1),
    QoS (2), RETAIN (1), from the high bit down. *)
Definition mqtt_header : Type := byte.
Definition header_type (h : mqtt_header) : Z := Z.shiftr (of_byte h) 4.
Definition header_dup (h : mqtt_header) : Z := Z.land (Z.shiftr (of_byte h) 3) 1.
Definition header_qos (h : mqtt_header) : Z := Z.land (Z.shiftr (of_byte h) 1) 3.
Definition header_retain (h : mqtt_header) : Z := Z.land (of_byte h) 1.

(** Modelled from the spec: the bit fields over the connect flags byte of
    [struct mqtt_connect] (bit 0 reserved, bit 1 clean-session, bit 2 will,
    bits 3-4 will-QoS, bit 5 will-retain, bit 6 password, bit 7
    username). *)
Definition bits_reserved (flags : Z) : Z := Z.land flags 1.
Definition bits_clean_session (flags : Z) : Z := Z.land (Z.shiftr flags 1) 1.
Definition bits_will (flags : Z) : Z := Z.land (Z.shiftr flags 2) 1.
Definition bits_will_qos (flags : Z) : Z := Z.land (Z.shiftr flags 3) 3.
Definition bits_will_retain (flags : Z) : Z := Z.land (Z.shiftr flags 5) 1.
Definition bits_password (flags : Z) : Z := Z.land (Z.shiftr flags 6) 1.
Definition bits_username (flags : Z) : Z := Z.land (Z.shiftr flags 7) 1.

(** Modelled from the spec: [struct mqtt_connect] of mqtt.h, which is not
    among the sources, with the fields [unpack_mqtt_connect] writes.  An
    [unsigned char *] field is [None] while it is NULL. *)
Record mqtt_connect : Type := {
  connect_header : mqtt_header;
  connect_byte : Z;
  keepalive : Z;
  client_id : option (list byte);
  username : option (list byte);
  password : option (list byte);
  will_topic : option (list byte);
  will_message : option (list byte)
}.

(** Modelled from the spec: [struct mqtt_publish] of mqtt.h, with the fields
    [unpack_mqtt_publish] writes. *)
Record mqtt_publish : Type := {
  publish_header : mqtt_header;
  publish_pkt_id : Z;
  topiclen : Z;
  topic : list byte;
  payloadlen : Z;
  payload : list byte
}.

(** Modelled from the spec: [struct mqtt_subscribe] of mqtt.h and its
    tuples, with the fields [unpack_mqtt_subscribe] writes. *)
Record subscribe_tuple : Type := {
  sub_topic_len : Z;
  sub_topic : list byte;
  sub_qos : Z
}.

Record mqtt_subscribe : Type := {
  subscribe_header : mqtt_header;
  subscribe_pkt_id : Z;
  subscribe_tuples_len : Z;
  subscribe_tuples : list subscribe_tuple
}.

(** Modelled from the spec: [struct mqtt_unsubscribe] of mqtt.h and its
    tuples, with the fields [unpack_mqtt_unsubscribe] writes. *)
Record unsubscribe_tuple : Type := {
  unsub_topic_len : Z;
  unsub_topic : list byte
}.

Record mqtt_unsubscribe : Type := {
  unsubscribe_header : mqtt_header;
  unsubscribe_pkt_id : Z;
  unsubscribe_tuples_len : Z;
  unsubscribe_tuples : list unsubscribe_tuple
}.

(** Modelled from the spec: [struct mqtt_ack] of mqtt.h, with the fields
    [unpack_mqtt_ack] writes. *)
Record mqtt_ack : Type := {
  ack_header : mqtt_header;
  ack_pkt_id : Z
}.

(** Modelled from the spec: [union mqtt_packet] of mqtt.h, tagged by the
    member that was written. *)
Inductive mqtt_packet : Type :=
| PktHeader (h : mqtt_header)
| PktConnect (c : mqtt_connect)
| PktPublish (p : mqtt_publish)
| PktSubscribe (s : mqtt_subscribe)
| PktUnsubscribe (u : mqtt_unsubscribe)
| PktAck (a : mqtt_ack).

(** ** Unpacking functions *)

(** [raw = p;]: the cursor is set, whatever it was. *)
Definition seek (p : list byte) : reader unit := fun _ => Done (tt, p).

(** The pattern [n = unpack_u16(&raw); p = malloc(n + 1);
    unpack_bytes(&raw, n, p);] that reads one length-prefixed field. *)
Definition unpack_field : reader (list byte) :=
  field_len ← unpack_u16;
  unpack_bytes field_len.

(** [unpack_mqtt_connect]; [raw] points behind the first byte of the fixed
    header. *)
Definition unpack_mqtt_connect (hdr : mqtt_header) : reader (Z * mqtt_packet) :=
  fun init =>
    (len ← mqtt_decode_length;
     _ ← seek (drop 8 init);
     byte ← unpack_u8;
     keepalive ← unpack_u16;
     cid_len ← unpack_u16;
     client_id ← (if cid_len >? 0
                  then (cid ← unpack_bytes cid_len; mret (Some cid))
                  else mret None);
     '(will_topic, will_message) ←
       (if bits_will byte =? 1
        then (will_topic ← unpack_field;
              will_message ← unpack_field;
              mret (Some will_topic, Some will_message))
        else mret (None, None));
     username ← (if bits_username byte =? 1
                 then (username ← unpack_field; mret (Some username))
                 else mret None);
     password ← (if bits_password byte =? 1
                 then (password ← unpack_field; mret (Some password))
                 else mret None);
     mret (len,
           PktConnect {| connect_header := hdr;
                         connect_byte := byte;
                         keepalive := keepalive;
                         client_id := client_id;
                         username := username;
                         password := password;
                         will_topic := will_topic;
                         will_message := will_message |})) init.

(** [unpack_mqtt_publish]; [message_len] is a [uint16_t]. *)
Definition unpack_mqtt_publish (hdr : mqtt_header) : reader (Z * mqtt_packet) :=
  len ← mqtt_decode_length;
  topic_len ← unpack_u16;
  topic ← unpack_bytes topic_len;
  let message_len := uint16 len in
  '(pkt_id, message_len) ←
    (if header_qos hdr >? AT_MOST_ONCE
     then (pkt_id ← unpack_u16; mret (pkt_id, uint16 (message_len - 2)))
     else mret (0, message_len));
  let message_len := uint16 (message_len - (2 + topic_len)) in
  payload ← unpack_bytes message_len;
  mret (len,
        PktPublish {| publish_header := hdr;
                      publish_pkt_id := pkt_id;
                      topiclen := topic_len;
                      topic := topic;
                      payloadlen := message_len;
                      payload := payload |}).

(** The [while (remaining_bytes > 0)] loop of [unpack_mqtt_subscribe];
    [remaining_bytes] is a [size_t], [tuples] holds the [i] tuples read so
    far.  [fuel] bounds the number of iterations. *)
Fixpoint subscribe_loop (fuel : nat) (remaining_bytes : Z)
    (tuples : list subscribe_tuple) : reader (list subscribe_tuple) :=
  if remaining_bytes >? 0 then
    match fuel with
    | O => fun _ => OutOfFuel
    | S fuel' =>
        topic_len ← unpack_u16;
        let remaining_bytes := uint64 (remaining_bytes - 2) in
        topic ← unpack_bytes topic_len;
        let remaining_bytes := uint64 (remaining_bytes - topic_len) in
        qos ← unpack_u8;
        let remaining_bytes := uint64 (remaining_bytes - 1) in
        subscribe_loop fuel' remaining_bytes
          (tuples ++ [{| sub_topic_len := topic_len;
                         sub_topic := topic;
                         sub_qos := qos |}])
    end
  else mret tuples.

(** [unpack_mqtt_subscribe] *)
Definition unpack_mqtt_subscribe (hdr : mqtt_header) : reader (Z * mqtt_packet) :=
  fun raw =>
    (len ← mqtt_decode_length;
     let remaining_bytes := len in
     pkt_id ← unpack_u16;
     let remaining_bytes := uint64 (remaining_bytes - 2) in
     tuples ← subscribe_loop (length raw) remaining_bytes [];
     mret (len,
           PktSubscribe {| subscribe_header := hdr;
                           subscribe_pkt_id := pkt_id;
                           subscribe_tuples_len := Z.of_nat (length tuples);
                           subscribe_tuples := tuples |})) raw.

(** The [while (remaining_bytes > 0)] loop of [unpack_mqtt_unsubscribe]. *)
Fixpoint unsubscribe_loop (fuel : nat) (remaining_bytes : Z)
    (tuples : list unsubscribe_tuple) : reader (list unsubscribe_tuple) :=
  if remaining_bytes >? 0 then
    match fuel with
    | O => fun _ => OutOfFuel
    | S fuel' =>
        topic_len ← unpack_u16;
        let remaining_bytes := uint64 (remaining_bytes - 2) in
        topic ← unpack_bytes topic_len;
        let remaining_bytes := uint64 (remaining_bytes - topic_len) in
        unsubscribe_loop fuel' remaining_bytes
          (tuples ++ [{| unsub_topic_len := topic_len;
                         unsub_topic := topic |}])
    end
  else mret tuples.

(** [unpack_mqtt_unsubscribe] *)
Definition unpack_mqtt_unsubscribe (hdr : mqtt_header) : reader (Z * mqtt_packet) :=
  fun raw =>
    (len ← mqtt_decode_length;
     let remaining_bytes := len in
     pkt_id ← unpack_u16;
     let remaining_bytes := uint64 (remaining_bytes - 2) in
     tuples ← unsubscribe_loop (length raw) remaining_bytes [];
     mret (len,
           PktUnsubscribe {| unsubscribe_header := hdr;
                             unsubscribe_pkt_id := pkt_id;
                             unsubscribe_tuples_len := Z.of_nat (length tuples);
                             unsubscribe_tuples := tuples |})) raw.

(** [unpack_mqtt_ack] *)
Definition unpack_mqtt_ack (hdr : mqtt_header) : reader (Z * mqtt_packet) :=
  len ← mqtt_decode_length;
  pkt_id ← unpack_u16;
  mret (len, PktAck {| ack_header := hdr; ack_pkt_id := pkt_id |}).

(** [typedef size_t mqtt_unpack_handler(...)] *)
Definition mqtt_unpack_handler : Type := mqtt_header -> reader (Z * mqtt_packet).

(** [static mqtt_unpack_handler *unpack_handlers[11]]; [None] is NULL. *)
Definition unpack_handlers : list (option mqtt_unpack_handler) :=
  [ None;
    Some unpack_mqtt_connect;
    None;
    Some unpack_mqtt_publish;
    Some unpack_mqtt_ack;
    Some unpack_mqtt_ack;
    Some unpack_mqtt_ack;
    Some unpack_mqtt_ack;
    Some unpack_mqtt_subscribe;
    None;
    Some unpack_mqtt_unsubscribe ].

(** [rc = handler(++raw, &header, pkt)]: the handler runs on the bytes behind
    the first one; the [size_t] it returns is converted to [int], its cursor
    is a local of the handler. *)
Definition call_handler (handler : mqtt_unpack_handler) (header : mqtt_header)
    (raw' : list byte) : outcome (Z * mqtt_packet) :=
  match handler header raw' with
  | Done ((len, pkt), _) => Done (int32 len, pkt)
  | Fail e => Fail e
  | Undef u => Undef u
  | OutOfFuel => OutOfFuel
  end.

(** [int unpack_mqtt_packet(const unsigned char *raw, union mqtt_packet
    *pkt)]: the return code and the packet written. *)
Definition unpack_mqtt_packet (raw : list byte) : outcome (Z * mqtt_packet) :=
  match raw with
  | [] => Undef ReadPastEnd
  | type :: raw' =>
      let header : mqtt_header := type in
      if (header_type header =? DISCONNECT)
         || (header_type header =? PINGREQ)
         || (header_type header =? PINGRESP)
      then Done (0, PktHeader header)
      else
        match unpack_handlers !! Z.to_nat (header_type header) with
        | None => Undef TableOutOfRange
        | Some None => Undef NullHandler
        | Some (Some handler) => call_handler handler header raw'
        end
  end.

End Mqtt.

Import Mqtt.

(** ** Event loop (network.h, server.h) *)

Module Evloop.

(** [#define EPOLL_MAX_EVENTS 256] and [#define EPOLL_TIMEOUT -1] of
    server.h. *)
Definition EPOLL_MAX_EVENTS : Z := 256.
Definition EPOLL_TIMEOUT : Z := -1.

(** Modelled from the spec: what a callback asks for the descriptor it ran
    on (re-arm for reading, re-arm for writing, unregister). *)
Inductive rearm : Set := RearmRead | RearmWrite | Unregister.

(** Modelled from the spec: what a descriptor is armed for, one of the two
    at a time. *)
Inductive interest : Set := ArmRead | ArmWrite.

Section Loop.

(** Whatever the callbacks work on (sessions, statistics, buffers). *)
Variable world : Type.

(** [struct closure] of network.h, reduced to the descriptor and the
    callback; as the spec has it, the callback answers how to arm the
    descriptor next. *)
Record closure : Type := {
  closure_fd : Z;
  call : world -> world * rearm
}.

(** [struct evloop] of network.h, with the registered closures by
    descriptor and what each descriptor is armed for. *)
Record evloop : Type := {
  max_events : Z;
  timeout : Z;
  closures : gmap Z closure;
  armed : gmap Z interest
}.

(** Modelled from the spec: [evloop_create(max_events, timeout)], declared
    in network.h: an empty loop. *)
Definition evloop_create (max_events timeout : Z) : evloop :=
  {| max_events := max_events; timeout := timeout;
     closures := ∅; armed := ∅ |}.

(** Modelled from the spec: [evloop_add_callback], declared in network.h:
    the closure is registered under its descriptor, armed for reading. *)
Definition evloop_add_callback (el : evloop) (c : closure) : evloop :=
  {| max_events := max_events el; timeout := timeout el;
     closures := <[closure_fd c := c]> (closures el);
     armed := <[closure_fd c := ArmRead]> (armed el) |}.

(** Modelled from the spec: the arm a callback asked for, applied to its
    descriptor. *)
Definition apply_rearm (el : evloop) (fd : Z) (r : rearm) : evloop :=
  match r with
  | RearmRead =>
      {| max_events := max_events el; timeout := timeout el;
         closures := closures el; armed := <[fd := ArmRead]> (armed el) |}
  | RearmWrite =>
      {| max_events := max_events el; timeout := timeout el;
         closures := closures el; armed := <[fd := ArmWrite]> (armed el) |}
  | Unregister =>
      {| max_events := max_events el; timeout := timeout el;
         closures := delete fd (closures el); armed := delete fd (armed el) |}
  end.

(** Modelled from the spec: the wait step of [evloop_wait], whose body
    (network.c) is not among the sources.  Of the descriptors the kernel
    has ready, at most [max_events] are handed over in one wait. *)
Definition wait_events (el : evloop) (ready : list Z) : list Z :=
  take (Z.to_nat (max_events el)) ready.

(** Modelled from the spec: one ready descriptor of a cycle of
    [evloop_wait]: its closure is looked up and the callback of that
    closure invoked; a one-shot descriptor is disarmed by its event and
    armed again the way the callback answers.  The third component lists
    the descriptors whose callback ran. *)
Definition dispatch_event (st : evloop * world * list Z) (fd : Z)
  : evloop * world * list Z :=
  let '(el, w, ran) := st in
  match closures el !! fd with
  | Some c =>
      let '(w', r) := call c w in
      (apply_rearm el fd r, w', ran ++ [fd])
  | None => (el, w, ran)
  end.

(** Modelled from the spec: one cycle of [evloop_wait], whose body
    (network.c) is not among the sources: wait for up to [max_events]
    ready events, then for each ready descriptor look up its closure and
    invoke its callback. *)
Definition evloop_cycle (el : evloop) (ready : list Z) (w : world)
  : evloop * world * list Z :=
  foldl dispatch_event (el, w, []) (wait_events el ready).

(** The callback of the closure registered for [fd], run on [w]. *)
Definition run_registered (el : evloop) (w : world) (fd : Z) : world :=
  match closures el !! fd with
  | Some c => fst (call c w)
  | None => w
  end.

End Loop.

Arguments closure_fd {world} _.
Arguments call {world} _ _.
Arguments max_events {world} _.
Arguments timeout {world} _.
Arguments closures {world} _.
Arguments armed {world} _.
Arguments evloop_create {world} _ _.
Arguments evloop_add_callback {world} _ _.
Arguments apply_rearm {world} _ _ _.
Arguments wait_events {world} _ _.
Arguments dispatch_event {world} _ _.
Arguments evloop_cycle {world} _ _ _.
Arguments run_registered {world} _ _ _.

End Evloop.

Import Evloop.

(** ** Wire layouts and predicates the statements use *)

Module Wire.

(** A decoder that fails with [ShortBuffer] and with no other error kind. *)
Definition fails_only_short {A : Type} (m : reader A) : Prop :=
  forall buf e, m buf = Fail e -> e = ShortBuffer.

(** Modelled from the spec: [pack_u16] of pack.h, which is not among the
    sources: an unsigned 16-bit integer in network byte order. *)
Definition pack_u16 (z : Z) : list byte := [to_byte (Z.shiftr z 8); to_byte z].

(** The bytes of one (topic-filter, requested-QoS) tuple of a SUBSCRIBE
    payload, and how many they are. *)
Definition subscribe_tuple_wire (t : subscribe_tuple) : list byte :=
  pack_u16 (sub_topic_len t) ++ sub_topic t ++ [to_byte (sub_qos t)].

Definition subscribe_tuple_size (t : subscribe_tuple) : Z :=
  2 + sub_topic_len t + 1.

Definition subscribe_tuples_wire (ts : list subscribe_tuple) : list byte :=
  concat (map subscribe_tuple_wire ts).

Definition subscribe_tuples_size (ts : list subscribe_tuple) : Z :=
  foldr (fun t n => subscribe_tuple_size t + n) 0 ts.

(** A tuple as the wire can carry it: the declared length is the length of
    the topic and fits 16 bits, the QoS is one byte. *)
Definition subscribe_tuple_ok (t : subscribe_tuple) : Prop :=
  sub_topic_len t = Z.of_nat (length (sub_topic t))
  /\ 0 <= sub_topic_len t < 2 ^ 16
  /\ 0 <= sub_qos t < 2 ^ 8.

(** The same for the topic filters of an UNSUBSCRIBE payload. *)
Definition unsubscribe_tuple_wire (t : unsubscribe_tuple) : list byte :=
  pack_u16 (unsub_topic_len t) ++ unsub_topic t.

Definition unsubscribe_tuple_size (t : unsubscribe_tuple) : Z :=
  2 + unsub_topic_len t.

Definition unsubscribe_tuples_wire (ts : list unsubscribe_tuple) : list byte :=
  concat (map unsubscribe_tuple_wire ts).

Definition unsubscribe_tuples_size (ts : list unsubscribe_tuple) : Z :=
  foldr (fun t n => unsubscribe_tuple_size t + n) 0 ts.

Definition unsubscribe_tuple_ok (t : unsubscribe_tuple) : Prop :=
  unsub_topic_len t = Z.of_nat (length (unsub_topic t))
  /\ 0 <= unsub_topic_len t < 2 ^ 16.

(** The bytes of a CONNECT packet behind the first byte of the fixed header:
    the Remaining Length bytes [lenb], the length-prefixed protocol name, the
    protocol level, the connect flags, and what follows them. *)
Definition connect_wire (lenb name : list byte) (level flags : byte)
    (rest : list byte) : list byte :=
  lenb ++ pack_u16 (Z.of_nat (length name)) ++ name ++ [level; flags] ++ rest.

(** Where the connect flags stand in [connect_wire]. *)
Definition connect_flags_offset (lenb name : list byte) : nat :=
  (length lenb + 2 + length name + 1)%nat.

(** The two protocol names the specification admits. *)
Definition name_MQTT : list byte := bytes_of [77; 81; 84; 84].
Definition name_MQIsdp : list byte := bytes_of [77; 81; 73; 115; 100; 112].

End Wire.

Import Wire.

(** ** More wire layouts: length bytes, PUBLISH and CONNECT bodies *)

Module Layout.

(** A length byte that announces another one: its high bit is set. *)
Definition continues (b : byte) : Prop := 128 <= of_byte b.

(** The number a run of length bytes stands for: the low seven bits of each
    byte are one base-128 digit, the least significant digit first. *)
Definition digits_value (bs : list byte) : Z :=
  foldr (fun b acc => of_byte b mod 128 + 128 * acc) 0 bs.

(** The packet id of a PUBLISH, on the wire when the QoS of the header is
    above [AT_MOST_ONCE] only. *)
Definition publish_id_wire (hdr : mqtt_header) (pkt_id : Z) : list byte :=
  if header_qos hdr >? AT_MOST_ONCE then pack_u16 pkt_id else [].

(** The bytes of a PUBLISH packet behind the Remaining Length. *)
Definition publish_wire (hdr : mqtt_header) (pkt_id : Z)
    (topic payload : list byte) : list byte :=
  pack_u16 (Z.of_nat (length topic)) ++ topic
  ++ publish_id_wire hdr pkt_id ++ payload.

(** A length-prefixed field. *)
Definition field_wire (x : list byte) : list byte :=
  pack_u16 (Z.of_nat (length x)) ++ x.

(** A length-prefixed field that is on the wire when its flag is 1. *)
Definition optional_wire (flag : Z) (x : list byte) : list byte :=
  if flag =? 1 then field_wire x else [].

(** What the decoder keeps of such a field: NULL when the flag is not 1. *)
Definition optional_field (flag : Z) (x : list byte) : option (list byte) :=
  if flag =? 1 then Some x else None.

(** The bytes of a CONNECT packet from the connect flags on: flags,
    keepalive, client id, then will topic and will message, username and
    password, each of them present when the flags say so. *)
Definition connect_body_wire (flags : byte) (keepalive : Z)
    (cid wt wm un pw : list byte) : list byte :=
  flags :: pack_u16 keepalive ++ field_wire cid
  ++ optional_wire (bits_will (of_byte flags)) wt
  ++ optional_wire (bits_will (of_byte flags)) wm
  ++ optional_wire (bits_username (of_byte flags)) un
  ++ optional_wire (bits_password (of_byte flags)) pw.

(** The header byte a decoded packet carries. *)
Definition packet_header (pkt : mqtt_packet) : mqtt_header :=
  match pkt with
  | PktHeader h => h
  | PktConnect c => connect_header c
  | PktPublish p => publish_header p
  | PktSubscribe s => subscribe_header s
  | PktUnsubscribe u => unsubscribe_header u
  | PktAck a => ack_header a
  end.

(** The member of the union that goes with a packet type. *)
Definition packet_matches_type (type : Z) (pkt : mqtt_packet) : bool :=
  match pkt with
  | PktHeader _ => (type =? PINGREQ) || (type =? PINGRESP) || (type =? DISCONNECT)
  | PktConnect _ => type =? CONNECT
  | PktPublish _ => type =? PUBLISH
  | PktSubscribe _ => type =? SUBSCRIBE
  | PktUnsubscribe _ => type =? UNSUBSCRIBE
  | PktAck _ =>
      (type =? PUBACK) || (type =? PUBREC) || (type =? PUBREL) || (type =? PUBCOMP)
  end.

End Layout.

Import Layout.

(** * Facts *)

(** ** C integers and bytes *)

Section CIntFacts.

Lemma uint64_small (x : Z) : 0 <= x < 2 ^ 64 -> uint64 x = x.
Proof. intros H. unfold uint64, wrap_unsigned. apply Z.mod_small. exact H. Qed.

Lemma uint16_small (x : Z) : 0 <= x < 2 ^ 16 -> uint16 x = x.
Proof. intros H. unfold uint16, wrap_unsigned. apply Z.mod_small. exact H. Qed.

Lemma int32_small (x : Z) : - 2 ^ 31 <= x < 2 ^ 31 -> int32 x = x.
Proof.
  intros H. unfold int32, wrap_signed.
  change (2 ^ (32 - 1)) with (2 ^ 31). rewrite Z.mod_small; lia.
Qed.

Lemma uint64_range (x : Z) : 0 <= uint64 x < 2 ^ 64.
Proof. unfold uint64, wrap_unsigned. apply Z.mod_pos_bound. lia. Qed.

Lemma of_byte_range (b : byte) : 0 <= of_byte b < 256.
Proof.
  unfold of_byte. pose proof (Byte.to_N_bounded b) as H. lia.
Qed.

Lemma of_byte_to_byte (z : Z) : of_byte (to_byte z) = z mod 256.
Proof.
  unfold of_byte, to_byte.
  assert (Hr : 0 <= z mod 256 < 256) by (apply Z.mod_pos_bound; lia).
  destruct (Byte.of_N (Z.to_N (z mod 256))) as [b|] eqn:E.
  - apply Byte.to_of_N in E. cbn [from_option id]. rewrite E. lia.
  - apply Byte.of_N_None_iff in E. lia.
Qed.

Lemma to_byte_of_byte (b : byte) : to_byte (of_byte b) = b.
Proof.
  unfold to_byte, of_byte.
  pose proof (Byte.to_N_bounded b) as H.
  rewrite Z.mod_small by lia.
  rewrite N2Z.id, Byte.of_to_N. reflexivity.
Qed.

(** The two masks of [mqtt_decode_length] see the same bits whether plain
    [char] is signed or not. *)
Lemma char_low7 (b : byte) : Z.land (of_char b) 127 = of_byte b mod 128.
Proof. destruct b; reflexivity. Qed.

Lemma char_high (b : byte) : (Z.land (of_char b) 128 =? 0) = (of_byte b <? 128).
Proof. destruct b; reflexivity. Qed.

Lemma char_masks_unsigned (b : byte) :
  Z.land (of_char b) 127 = Z.land (of_byte b) 127
  /\ Z.land (of_char b) 128 = Z.land (of_byte b) 128.
Proof. destruct b; split; reflexivity. Qed.

Lemma lor_128 (d : Z) : 0 <= d < 128 -> Z.lor d 128 = d + 128.
Proof.
  intros H. symmetry. apply Z.add_nocarry_lor.
  rewrite <- (Z.mod_small d 128) by lia.
  change 128 with (2 ^ 7) at 1. rewrite <- Z.land_ones by lia.
  rewrite <- Z.land_assoc. apply Z.land_0_r.
Qed.

End CIntFacts.

(** ** Remaining Length *)

Section RemainingLength.

Lemma encode_length_loop_step (fuel : nat) (buf : list byte) (bytes len : Z) :
  encode_length_loop (S fuel) buf bytes len =
    if bytes + 1 >? MAX_LEN_BYTES then Some (bytes, buf)
    else if len / 128 >? 0
         then encode_length_loop fuel
                (buf ++ [to_byte (Z.lor (len mod 128) 128)]) (bytes + 1) (len / 128)
         else Some (bytes + 1, buf ++ [to_byte (len mod 128)]).
Proof.
  cbn [encode_length_loop].
  destruct (bytes + 1 >? MAX_LEN_BYTES); [reflexivity|].
  destruct (len / 128 >? 0); reflexivity.
Qed.

(** A byte with the continuation bit set adds its digit and goes on. *)
Lemma decode_length_continue (d m v : Z) (buf : list byte) :
  0 <= d < 128 -> 0 <= m -> d * m < 2 ^ 31 -> m * 128 < 2 ^ 31 ->
  0 <= v -> v + d * m < 2 ^ 64 ->
  decode_length_loop m v (to_byte (Z.lor d 128) :: buf)
  = decode_length_loop (m * 128) (v + d * m) buf.
Proof.
  intros Hd Hm Hdm Hm' Hv Hv'. cbn [decode_length_loop].
  rewrite char_low7, char_high, of_byte_to_byte, lor_128 by exact Hd.
  rewrite (Z.mod_small (d + 128) 256) by lia.
  replace ((d + 128) mod 128) with d by (Z.div_mod_to_equations; lia).
  destruct (Z.ltb_spec (d + 128) 128) as [Hlt|_]; [lia|]. cbn [negb].
  rewrite (int32_small (d * m)) by nia.
  rewrite (uint64_small (d * m)) by nia.
  rewrite (uint64_small (v + d * m)) by nia.
  rewrite (int32_small (m * 128)) by lia.
  reflexivity.
Qed.

(** A byte with the continuation bit clear adds its digit and stops. *)
Lemma decode_length_stop (d m v : Z) (buf : list byte) :
  0 <= d < 128 -> 0 <= m -> d * m < 2 ^ 31 ->
  0 <= v -> v + d * m < 2 ^ 64 ->
  decode_length_loop m v (to_byte d :: buf) = Done (v + d * m, buf).
Proof.
  intros Hd Hm Hdm Hv Hv'. cbn [decode_length_loop].
  rewrite char_low7, char_high, of_byte_to_byte.
  rewrite (Z.mod_small d 256) by lia.
  rewrite (Z.mod_small d 128) by lia.
  destruct (Z.ltb_spec d 128) as [_|Hge]; [|lia]. cbn [negb].
  rewrite (int32_small (d * m)) by nia.
  rewrite (uint64_small (d * m)) by nia.
  rewrite (uint64_small (v + d * m)) by nia.
  reflexivity.
Qed.

(** The encoder returns on every length: the five iterations allowed are
    never used up. *)
Lemma mqtt_encode_length_returns (len : Z) :
  exists n bs, mqtt_encode_length len = Some (n, bs).
Proof.
  unfold mqtt_encode_length.
  change (Z.to_nat (MAX_LEN_BYTES + 1)) with 5%nat.
  repeat (rewrite encode_length_loop_step;
          match goal with
          | |- context [?a + 1 >? MAX_LEN_BYTES] =>
              let b := eval vm_compute in (a + 1 >? MAX_LEN_BYTES) in
              change (a + 1 >? MAX_LEN_BYTES) with b; cbv iota
          end;
          try match goal with
            | |- context [if ?c then _ else _] => destruct c; [|eauto]
            end);
  eauto.
Qed.

End RemainingLength.

(** One iteration of the encoder with the counter known: the guard is
    evaluated and the test on the quotient is split, keeping what each
    branch knows about the quotient. *)
Ltac encode_step :=
  rewrite encode_length_loop_step;
  match goal with
  | |- context [?a + 1 >? MAX_LEN_BYTES] =>
      let b := eval vm_compute in (a + 1 >? MAX_LEN_BYTES) in
      change (a + 1 >? MAX_LEN_BYTES) with b;
      let s := eval vm_compute in (a + 1) in
      change (a + 1) with s;
      cbv iota
  end;
  try match goal with
    | |- context [?q >? 0] =>
        let Hq := fresh "Hq" in
        destruct (Z.gtb_spec q 0) as [Hq|Hq]
    end.

Section RemainingLengthRoundTrip.

(** Encoding a length below 128 ^ 4 and decoding the bytes gives the length
    back, whatever follows the bytes. *)
Lemma encode_decode_length (L : Z) :
  0 <= L < 128 ^ 4 ->
  exists bs : list byte,
    mqtt_encode_length L = Some (Z.of_nat (length bs), bs)
    /\ (1 <= length bs <= 4)%nat
    /\ forall rest, mqtt_decode_length (bs ++ rest) = Done (L, rest).
Proof.
  intros HL. unfold mqtt_encode_length, mqtt_decode_length.
  rewrite uint64_small by lia.
  change (Z.to_nat (MAX_LEN_BYTES + 1)) with 5%nat.
  encode_step; [encode_step; [encode_step; [encode_step; [encode_step|]|]|]|];
    cbn [app];
    match goal with |- context [Some (_, ?l)] => exists l end;
    (split; [reflexivity|]); cbn [app length];
    (split; [lia|]); intros rest;
    repeat (rewrite decode_length_continue
              by (Z.div_mod_to_equations; lia));
    try (rewrite decode_length_stop by (Z.div_mod_to_equations; lia);
         f_equal; f_equal; Z.div_mod_to_equations; lia).
  exfalso. Z.div_mod_to_equations. lia.
Qed.

(** C1: for every Remaining Length L in [0, 268435455] the encoder returns
    between 1 and 4 bytes, and the decoder run on those bytes (followed by
    anything) returns L and leaves the cursor right behind them. *)
Theorem remaining_length_round_trip (L : Z) :
  0 <= L <= 268435455 ->
  exists (n : Z) (bs : list byte),
    mqtt_encode_length L = Some (n, bs)
    /\ 1 <= n <= 4
    /\ Z.of_nat (length bs) = n
    /\ forall rest, mqtt_decode_length (bs ++ rest) = Done (L, rest).
Proof.
  intros HL.
  destruct (encode_decode_length L) as (bs & Henc & Hlen & Hdec); [lia|].
  exists (Z.of_nat (length bs)), bs. repeat split; try assumption; lia.
Qed.

Lemma remaining_length_round_trip_witness :
  0 <= 321 <= 268435455
  /\ exists (n : Z) (bs : list byte),
       mqtt_encode_length 321 = Some (n, bs)
       /\ 1 <= n <= 4
       /\ Z.of_nat (length bs) = n
       /\ forall rest, mqtt_decode_length (bs ++ rest) = Done (321, rest).
Proof. split; [lia | apply (remaining_length_round_trip 321); lia]. Defined.

End RemainingLengthRoundTrip.

(** ** The readers *)

Section Readers.

Lemma bind_Done {A B : Type} (m : reader A) (f : A -> reader B)
    (buf buf' : list byte) (a : A) :
  m buf = Done (a, buf') -> (m ≫= f) buf = f a buf'.
Proof. intros H. unfold mbind, reader_bind. rewrite H. reflexivity. Qed.

Lemma bind_Done_inv {A B : Type} (m : reader A) (f : A -> reader B)
    (buf : list byte) (r : B * list byte) :
  (m ≫= f) buf = Done r ->
  exists a buf', m buf = Done (a, buf') /\ f a buf' = Done r.
Proof.
  unfold mbind, reader_bind. destruct (m buf) as [[a buf']| | |]; try discriminate.
  intros H. exists a, buf'. split; [reflexivity | exact H].
Qed.

Lemma lor_shiftl_8 (h l : Z) :
  0 <= l < 256 -> Z.lor (Z.shiftl h 8) l = h * 256 + l.
Proof.
  intros Hl. symmetry. rewrite Z.shiftl_mul_pow2 by lia.
  change (2 ^ 8) with 256. apply Z.add_nocarry_lor.
  rewrite <- (Z.mod_small l 256) by lia.
  change 256 with (2 ^ 8). rewrite <- !Z.land_ones by lia.
  rewrite (Z.land_comm l), Z.land_assoc, (Z.land_ones (h * 2 ^ 8)) by lia.
  rewrite Z.mod_mul by lia. reflexivity.
Qed.

Lemma unpack_u16_value (hi lo : byte) (buf : list byte) :
  unpack_u16 (hi :: lo :: buf) = Done (of_byte hi * 256 + of_byte lo, buf).
Proof.
  cbn [unpack_u16]. rewrite lor_shiftl_8 by apply of_byte_range. reflexivity.
Qed.

Lemma unpack_u16_Done (buf buf' : list byte) (v : Z) :
  unpack_u16 buf = Done (v, buf') ->
  0 <= v < 2 ^ 16 /\ buf = pack_u16 v ++ buf'.
Proof.
  destruct buf as [|hi [|lo buf0]]; try discriminate.
  rewrite unpack_u16_value. intros H. injection H as <- <-.
  pose proof (of_byte_range hi) as Hh. pose proof (of_byte_range lo) as Hl.
  split; [lia|]. unfold pack_u16. cbn [app]. f_equal; [|f_equal].
  - rewrite Z.shiftr_div_pow2 by lia. change (2 ^ 8) with 256.
    replace ((of_byte hi * 256 + of_byte lo) / 256) with (of_byte hi)
      by (Z.div_mod_to_equations; lia).
    symmetry. apply to_byte_of_byte.
  - rewrite <- (to_byte_of_byte lo) at 1. unfold to_byte. do 3 f_equal.
    Z.div_mod_to_equations; lia.
Qed.

Lemma unpack_u16_pack (v : Z) (buf : list byte) :
  0 <= v < 2 ^ 16 -> unpack_u16 (pack_u16 v ++ buf) = Done (v, buf).
Proof.
  intros Hv. unfold pack_u16. cbn [app]. rewrite unpack_u16_value.
  rewrite !of_byte_to_byte, Z.shiftr_div_pow2 by lia. change (2 ^ 8) with 256.
  f_equal. f_equal. Z.div_mod_to_equations; lia.
Qed.

Lemma unpack_u16_Fail (buf : list byte) (e : mqtt_error) :
  unpack_u16 buf = Fail e -> e = ShortBuffer /\ (length buf < 2)%nat.
Proof.
  destruct buf as [|hi [|lo buf0]]; cbn; intros H; try discriminate;
    injection H as <-; split; (reflexivity || lia).
Qed.

Lemma unpack_u8_Done (buf buf' : list byte) (v : Z) :
  unpack_u8 buf = Done (v, buf') ->
  0 <= v < 2 ^ 8 /\ buf = to_byte v :: buf'.
Proof.
  destruct buf as [|b buf0]; cbn; intros H; [discriminate|].
  injection H as <- <-. split; [apply of_byte_range|].
  rewrite to_byte_of_byte. reflexivity.
Qed.

Lemma unpack_u8_byte (v : Z) (buf : list byte) :
  0 <= v < 2 ^ 8 -> unpack_u8 (to_byte v :: buf) = Done (v, buf).
Proof.
  intros Hv. cbn [unpack_u8]. rewrite of_byte_to_byte, Z.mod_small by lia.
  reflexivity.
Qed.

Lemma unpack_bytes_Done (n : Z) (buf buf' bs : list byte) :
  0 <= n -> unpack_bytes n buf = Done (bs, buf') ->
  Z.of_nat (length bs) = n /\ buf = bs ++ buf'.
Proof.
  intros Hn. unfold unpack_bytes.
  destruct (Z.ltb_spec (Z.of_nat (length buf)) n) as [|Hle]; [discriminate|].
  intros H. injection H as <- <-. split.
  - rewrite length_take. lia.
  - symmetry. apply take_drop.
Qed.

Lemma unpack_bytes_app (bs buf : list byte) :
  unpack_bytes (Z.of_nat (length bs)) (bs ++ buf) = Done (bs, buf).
Proof.
  unfold unpack_bytes. rewrite length_app, Nat2Z.id.
  destruct (Z.ltb_spec (Z.of_nat (length bs + length buf)) (Z.of_nat (length bs)));
    [lia|].
  rewrite take_app_length, drop_app_length. reflexivity.
Qed.

End Readers.

(** ** The error kinds the decoders can fail with *)

Section Failures.

Lemma fails_only_short_ret {A : Type} (a : A) : fails_only_short (mret a).
Proof. intros buf e H. discriminate H. Qed.

Lemma fails_only_short_bind {A B : Type} (m : reader A) (f : A -> reader B) :
  fails_only_short m -> (forall a, fails_only_short (f a)) ->
  fails_only_short (m ≫= f).
Proof.
  intros Hm Hf buf e. unfold mbind, reader_bind.
  destruct (m buf) as [[a buf']|e'| |] eqn:E; try discriminate.
  - apply Hf.
  - intros H. injection H as <-. exact (Hm _ _ E).
Qed.

Lemma fails_only_short_u8 : fails_only_short unpack_u8.
Proof. intros [|b buf] e H; cbn in H; congruence. Qed.

Lemma fails_only_short_u16 : fails_only_short unpack_u16.
Proof. intros buf e H. apply unpack_u16_Fail in H. tauto. Qed.

Lemma fails_only_short_bytes (n : Z) : fails_only_short (unpack_bytes n).
Proof.
  intros buf e. unfold unpack_bytes.
  destruct (Z.of_nat (length buf) <? n); congruence.
Qed.

Lemma fails_only_short_seek (p : list byte) : fails_only_short (seek p).
Proof. intros buf e H. discriminate H. Qed.

(** The Remaining Length decoder has no failure of its own: it returns a
    value or reads behind the buffer. *)
Lemma decode_length_loop_never_fails (buf : list byte) (m v : Z) (e : mqtt_error) :
  decode_length_loop m v buf <> Fail e.
Proof.
  revert m v. induction buf as [|b buf IH]; intros m v; cbn [decode_length_loop].
  - discriminate.
  - destruct (negb (Z.land (of_char b) 128 =? 0)); [apply IH | discriminate].
Qed.

Lemma fails_only_short_decode_length : fails_only_short mqtt_decode_length.
Proof.
  intros buf e H. exfalso. exact (decode_length_loop_never_fails _ _ _ _ H).
Qed.

Lemma fails_only_short_field : fails_only_short unpack_field.
Proof.
  apply fails_only_short_bind; [apply fails_only_short_u16|].
  intros n. apply fails_only_short_bytes.
Qed.

End Failures.

Create HintDb short.

#[local] Hint Resolve fails_only_short_ret fails_only_short_u8 fails_only_short_u16
  fails_only_short_bytes fails_only_short_seek fails_only_short_decode_length
  fails_only_short_field : short.

(** Splits a decoder written with binds, conditionals and pairs into its
    readers. *)
Ltac only_short :=
  repeat first
    [ solve [auto with short]
    | apply fails_only_short_bind; [|intros ?]
    | match goal with
      | |- fails_only_short (if ?c then _ else _) => destruct c
      | |- fails_only_short (let '(_, _) := ?p in _) => destruct p
      | |- fails_only_short (match ?p with (_, _) => _ end) => destruct p
      end ].

Section HandlerFailures.

Lemma fails_only_short_connect (hdr : mqtt_header) :
  fails_only_short (unpack_mqtt_connect hdr).
Proof.
  intros init. unfold unpack_mqtt_connect.
  match goal with
  | |- forall e, ?m init = Fail e -> _ =>
      enough (fails_only_short m) as H by (intros e; apply H)
  end.
  only_short.
Qed.

Lemma fails_only_short_publish (hdr : mqtt_header) :
  fails_only_short (unpack_mqtt_publish hdr).
Proof. unfold unpack_mqtt_publish. only_short. Qed.

Lemma fails_only_short_ack (hdr : mqtt_header) :
  fails_only_short (unpack_mqtt_ack hdr).
Proof. unfold unpack_mqtt_ack. only_short. Qed.

Lemma fails_only_short_subscribe_loop (fuel : nat) (rb : Z)
    (tuples : list subscribe_tuple) :
  fails_only_short (subscribe_loop fuel rb tuples).
Proof.
  revert rb tuples. induction fuel as [|fuel IH]; intros rb tuples;
    cbn [subscribe_loop]; destruct (rb >? 0); only_short;
    solve [intros buf e H; discriminate H | apply IH].
Qed.

Lemma fails_only_short_unsubscribe_loop (fuel : nat) (rb : Z)
    (tuples : list unsubscribe_tuple) :
  fails_only_short (unsubscribe_loop fuel rb tuples).
Proof.
  revert rb tuples. induction fuel as [|fuel IH]; intros rb tuples;
    cbn [unsubscribe_loop]; destruct (rb >? 0); only_short;
    solve [intros buf e H; discriminate H | apply IH].
Qed.

Lemma fails_only_short_subscribe (hdr : mqtt_header) :
  fails_only_short (unpack_mqtt_subscribe hdr).
Proof.
  intros raw. unfold unpack_mqtt_subscribe.
  match goal with
  | |- forall e, ?m raw = Fail e -> _ =>
      enough (fails_only_short m) as H by (intros e; apply H)
  end.
  only_short. apply fails_only_short_subscribe_loop.
Qed.

Lemma fails_only_short_unsubscribe (hdr : mqtt_header) :
  fails_only_short (unpack_mqtt_unsubscribe hdr).
Proof.
  intros raw. unfold unpack_mqtt_unsubscribe.
  match goal with
  | |- forall e, ?m raw = Fail e -> _ =>
      enough (fails_only_short m) as H by (intros e; apply H)
  end.
  only_short. apply fails_only_short_unsubscribe_loop.
Qed.

(** Every entry of the handler table fails with [ShortBuffer] only. *)
Lemma fails_only_short_handlers (i : nat) (handler : mqtt_unpack_handler)
    (hdr : mqtt_header) :
  unpack_handlers !! i = Some (Some handler) -> fails_only_short (handler hdr).
Proof.
  unfold unpack_handlers.
  do 11 (destruct i as [|i];
         [cbn; intros H; try discriminate; injection H as <-;
          auto using fails_only_short_connect, fails_only_short_publish,
            fails_only_short_ack, fails_only_short_subscribe,
            fails_only_short_unsubscribe|]).
  cbn. discriminate.
Qed.

Lemma unpack_mqtt_packet_fails_only_short (raw : list byte) (e : mqtt_error) :
  unpack_mqtt_packet raw = Fail e -> e = ShortBuffer.
Proof.
  unfold unpack_mqtt_packet. destruct raw as [|type raw']; [discriminate|].
  cbv zeta.
  destruct (_ || _); [discriminate|].
  destruct (unpack_handlers !! Z.to_nat (header_type type)) as [[handler|]|] eqn:E;
    try discriminate.
  pose proof (fails_only_short_handlers _ _ type E raw') as H.
  unfold call_handler.
  destruct (handler type raw') as [[[len pkt] rest]|e'| |]; try discriminate.
  intros H'. injection H' as <-. apply H. reflexivity.
Qed.

End HandlerFailures.

(** ** Remaining Length: the bounds of the two loops *)

Section RemainingLengthBounds.

(** Four length bytes with the continuation bit set: the decoder has added
    their four digits and goes on with the bytes behind them, the multiplier
    at 128 ^ 4. *)
Lemma decode_length_four_continuation_bytes (b1 b2 b3 b4 : byte) (rest : list byte) :
  128 <= of_byte b1 -> 128 <= of_byte b2 ->
  128 <= of_byte b3 -> 128 <= of_byte b4 ->
  mqtt_decode_length (b1 :: b2 :: b3 :: b4 :: rest)
  = decode_length_loop (128 ^ 4)
      ((of_byte b1 - 128) + (of_byte b2 - 128) * 128
       + (of_byte b3 - 128) * 128 ^ 2 + (of_byte b4 - 128) * 128 ^ 3)
      rest.
Proof.
  intros H1 H2 H3 H4.
  pose proof (of_byte_range b1). pose proof (of_byte_range b2).
  pose proof (of_byte_range b3). pose proof (of_byte_range b4).
  assert (Hb : forall b, 128 <= of_byte b ->
                         b = to_byte (Z.lor (of_byte b - 128) 128)).
  { intros b Hb. pose proof (of_byte_range b).
    rewrite lor_128 by lia.
    replace (of_byte b - 128 + 128) with (of_byte b) by lia.
    symmetry. apply to_byte_of_byte. }
  unfold mqtt_decode_length.
  rewrite (Hb b1 H1) at 1. rewrite decode_length_continue by lia.
  rewrite (Hb b2 H2) at 1. rewrite decode_length_continue by lia.
  rewrite (Hb b3 H3) at 1. rewrite decode_length_continue by lia.
  rewrite (Hb b4 H4) at 1. rewrite decode_length_continue by lia.
  f_equal; lia.
Qed.

(** C2: the decoder has no check on the fourth byte and no [MalformedVarint]
    failure.  On the bytes 80 80 80 80 01 09 it consumes the fifth byte and
    returns 268435456 with the cursor on 09, where the claim wants a failure
    after the fourth byte; and on no buffer at all does it fail with
    [MalformedVarint]. *)
Theorem decode_length_consumes_fifth_byte :
  mqtt_decode_length (bytes_of [128; 128; 128; 128; 1; 9])
  = Done (268435456, bytes_of [9])
  /\ forall buf, mqtt_decode_length buf <> Fail MalformedVarint.
Proof.
  split; [vm_compute; reflexivity|].
  intros buf. apply decode_length_loop_never_fails.
Qed.

(** C7, as the claim states it, fails at 268435456, the first length that
    needs a fifth byte: the encoder returns 4 and has written the four bytes
    80 80 80 80, the truncated encoding. *)
Lemma encode_length_truncates_268435456 :
  mqtt_encode_length 268435456 = Some (4, bytes_of [128; 128; 128; 128]).
Proof. vm_compute. reflexivity. Qed.

(** C7, amended: the encoder returns between 1 and 4 bytes for every
    [size_t] length, and for a length above 268435455 it stops at the guard
    on [MAX_LEN_BYTES] and returns 4 with the four low base-128 digits
    written, each with its continuation bit set: a truncated encoding and no
    failure. *)
Theorem encode_length_at_most_four (len : Z) :
  0 <= len < 2 ^ 64 ->
  exists (n : Z) (bs : list byte),
    mqtt_encode_length len = Some (n, bs)
    /\ 1 <= n <= 4
    /\ Z.of_nat (length bs) = n
    /\ (268435455 < len ->
        n = 4
        /\ bs = map (fun i => to_byte (Z.lor ((len / 128 ^ i) mod 128) 128))
                  [0; 1; 2; 3]).
Proof.
  intros Hlen. unfold mqtt_encode_length.
  rewrite uint64_small by exact Hlen.
  change (Z.to_nat (MAX_LEN_BYTES + 1)) with 5%nat.
  encode_step; [encode_step; [encode_step; [encode_step; [encode_step|]|]|]|];
    cbn [app];
    match goal with |- context [Some (?k, ?l)] => exists k, l end;
    (split; [reflexivity|]); (split; [lia|]); (split; [reflexivity|]);
    intros Hbig; try (exfalso; Z.div_mod_to_equations; lia).
  split; [reflexivity|]. cbn [map].
  rewrite Z.pow_0_r, Z.div_1_r.
  change (128 ^ 1) with 128.
  change (128 ^ 2) with (128 * 128). change (128 ^ 3) with (128 * 128 * 128).
  rewrite <- !Z.div_div by lia. reflexivity.
Qed.

Lemma encode_length_at_most_four_witness :
  0 <= 268435456 < 2 ^ 64
  /\ exists (n : Z) (bs : list byte),
       mqtt_encode_length 268435456 = Some (n, bs)
       /\ 1 <= n <= 4
       /\ Z.of_nat (length bs) = n
       /\ (268435455 < 268435456 ->
           n = 4
           /\ bs = map (fun i => to_byte (Z.lor ((268435456 / 128 ^ i) mod 128) 128))
                     [0; 1; 2; 3]).
Proof. split; [lia | apply (encode_length_at_most_four 268435456); lia]. Defined.

End RemainingLengthBounds.

(** ** Dispatch on the packet type *)

Section Dispatch.

Lemma header_type_range (b : byte) : 0 <= header_type b < 16.
Proof.
  unfold header_type. pose proof (of_byte_range b) as H.
  rewrite Z.shiftr_div_pow2 by lia. change (2 ^ 4) with 16.
  Z.div_mod_to_equations; lia.
Qed.



End Dispatch.

(** ** PUBLISH: the payload length *)

Section Publish.

(** What the decoder computes for every PUBLISH it accepts: the Remaining
    Length less the variable header, cut to the 16 bits of [message_len]. *)
Lemma unpack_mqtt_publish_payloadlen (hdr : mqtt_header) (raw rest : list byte)
    (len : Z) (p : mqtt_publish) :
  unpack_mqtt_publish hdr raw = Done ((len, PktPublish p), rest) ->
  payloadlen p
  = (len - (2 + topiclen p) - (if header_qos hdr >? AT_MOST_ONCE then 2 else 0))
      mod 2 ^ 16
  /\ Z.of_nat (length (payload p)) = payloadlen p
  /\ 0 <= topiclen p < 2 ^ 16.
Proof.
  unfold unpack_mqtt_publish. intros H.
  apply bind_Done_inv in H as (len' & b1 & _ & H).
  apply bind_Done_inv in H as (tl & b2 & Htl & H).
  apply unpack_u16_Done in Htl as [Htl _].
  apply bind_Done_inv in H as (tp & b3 & _ & H).
  cbv zeta in H.
  apply bind_Done_inv in H as ([pid ml] & b4 & Hq & H).
  apply bind_Done_inv in H as (pl & b5 & Hpl & H).
  injection H as <- <- <-. cbn [payloadlen payload topiclen].
  apply unpack_bytes_Done in Hpl;
    [|unfold uint16, wrap_unsigned; apply Z.mod_pos_bound; lia].
  destruct Hpl as [Hpl _]. split; [|split; [exact Hpl | exact Htl]].
  unfold uint16, wrap_unsigned in *.
  destruct (header_qos hdr >? AT_MOST_ONCE).
  - apply bind_Done_inv in Hq as (pid' & b6 & _ & Hq). injection Hq as _ <- _.
    clear. change (2 ^ 16) with 65536. Z.div_mod_to_equations. lia.
  - injection Hq as _ <- _.
    clear. change (2 ^ 16) with 65536. Z.div_mod_to_equations. lia.
Qed.

(** While the Remaining Length fits 16 bits and covers the variable header,
    the payload length is the Remaining Length less the variable header. *)
Lemma unpack_mqtt_publish_payloadlen_small (hdr : mqtt_header)
    (raw rest : list byte) (len : Z) (p : mqtt_publish) :
  unpack_mqtt_publish hdr raw = Done ((len, PktPublish p), rest) ->
  len < 2 ^ 16 ->
  (2 + topiclen p) + (if header_qos hdr >? AT_MOST_ONCE then 2 else 0) <= len ->
  payloadlen p
  = len - (2 + topiclen p) - (if header_qos hdr >? AT_MOST_ONCE then 2 else 0).
Proof.
  intros H Hlen Hhdr.
  apply unpack_mqtt_publish_payloadlen in H as (-> & _ & Htl).
  apply Z.mod_small.
  destruct (header_qos hdr >? AT_MOST_ONCE); lia.
Qed.

(** C4: a QoS 0 PUBLISH on topic [a] with a payload of 65536 bytes: the
    Remaining Length is 65539 (bytes 83 80 04), well under the 2 MiB limit.
    The claim gives the payload length 65539 - (2 + 1) = 65536; the decoder
    keeps the Remaining Length in a [uint16_t] and gives payload length 0 and
    an empty payload. *)
Theorem unpack_mqtt_publish_truncates_payloadlen :
  unpack_mqtt_packet
    (bytes_of ([48; 131; 128; 4; 0; 1; 97] ++ repeat 120 (Z.to_nat 65536)))
  = Done (65539,
          PktPublish {| publish_header := to_byte 48;
                        publish_pkt_id := 0;
                        topiclen := 1;
                        topic := bytes_of [97];
                        payloadlen := 0;
                        payload := [] |}).
Proof. vm_compute. reflexivity. Qed.

End Publish.

(** ** CONNECT: what is validated and where the flags are read *)

Section Connect.

(** A Remaining Length of one byte. *)
Lemma decode_length_single (l : byte) (buf : list byte) :
  of_byte l < 128 -> mqtt_decode_length (l :: buf) = Done (of_byte l, buf).
Proof.
  intros Hl. pose proof (of_byte_range l) as Hr. unfold mqtt_decode_length.
  rewrite <- (to_byte_of_byte l) at 1.
  rewrite decode_length_stop by lia. f_equal. f_equal. lia.
Qed.

(** Splits the first bind of a decoder whose first reader is known. *)
Ltac run_reader E :=
  unfold mbind at 1, reader_bind at 1; rewrite E; cbv beta iota.

(** C5, as the claim states it, fails on the code: a CONNECT whose protocol
    name is XXXX, whose protocol level is 9 and whose reserved flag bit is 1
    (10 0D 00 04 58 58 58 58 09 03 00 3C 00 01 41) is decoded without a
    failure, and a CONNECT that stops before the client id
    (10 0A 00 04 4D 51 54 54 04 02 00 3C) fails in the byte reader with
    [ShortBuffer], not with [ProtocolViolation]. *)
Lemma unpack_mqtt_connect_accepts_reserved_bit :
  unpack_mqtt_packet
    (bytes_of [16; 13; 0; 4; 88; 88; 88; 88; 9; 3; 0; 60; 0; 1; 65])
  = Done (13,
          PktConnect {| connect_header := to_byte 16;
                        connect_byte := 3;
                        keepalive := 60;
                        client_id := Some (bytes_of [65]);
                        username := None;
                        password := None;
                        will_topic := None;
                        will_message := None |})
  /\ unpack_mqtt_packet (bytes_of [16; 10; 0; 4; 77; 81; 84; 84; 4; 2; 0; 60])
     = Fail ShortBuffer.
Proof. split; vm_compute; reflexivity. Qed.

(** C5, amended: decoding a CONNECT packet validates nothing of the variable
    header.  With a Remaining Length of one byte, whatever the seven bytes
    [v] behind it are (the protocol name and level in a CONNECT) and
    whatever the reserved bit of the flags is, the decoder skips to the flags
    byte and decodes flags, keepalive and client id (here for flags that
    announce no will, username or password; a client id of length zero is
    taken as no client id, whatever the clean-session flag); and on no input
    does it fail with [ProtocolViolation]. *)
Theorem unpack_mqtt_connect_validates_nothing (hdr : mqtt_header) (l flags : byte)
    (v cid rest : list byte) (ka : Z) :
  of_byte l < 128 ->
  length v = 7%nat ->
  bits_will (of_byte flags) = 0 ->
  bits_username (of_byte flags) = 0 ->
  bits_password (of_byte flags) = 0 ->
  0 <= ka < 2 ^ 16 ->
  Z.of_nat (length cid) < 2 ^ 16 ->
  unpack_mqtt_connect hdr
    (l :: v ++ flags :: pack_u16 ka ++ pack_u16 (Z.of_nat (length cid)) ++ cid ++ rest)
  = Done ((of_byte l,
           PktConnect {| connect_header := hdr;
                         connect_byte := of_byte flags;
                         keepalive := ka;
                         client_id := if Z.of_nat (length cid) >? 0
                                      then Some cid else None;
                         username := None;
                         password := None;
                         will_topic := None;
                         will_message := None |}), rest)
  /\ forall raw, unpack_mqtt_connect hdr raw <> Fail ProtocolViolation.
Proof.
  intros Hl Hv Hw Hu Hp Hka Hcid. split.
  - unfold unpack_mqtt_connect.
    run_reader decode_length_single; [|exact Hl].
    unfold mbind at 1, reader_bind at 1, seek at 1. cbv beta iota.
    replace (drop 8 _) with
      (flags :: pack_u16 ka ++ pack_u16 (Z.of_nat (length cid)) ++ cid ++ rest)
      by (cbn [drop]; symmetry; apply drop_app_length'; symmetry; exact Hv).
    unfold mbind at 1, reader_bind at 1, unpack_u8 at 1. cbv beta iota.
    run_reader unpack_u16_pack; [|exact Hka].
    run_reader unpack_u16_pack; [|lia].
    rewrite Hw, Hu, Hp. cbn [Z.eqb].
    destruct (Z.gtb_spec (Z.of_nat (length cid)) 0) as [Hpos|Hzero].
    + unfold mbind at 1, reader_bind at 1. cbv beta iota.
      run_reader unpack_bytes_app. reflexivity.
    + assert (cid = []) as -> by (destruct cid; [reflexivity | cbn in Hzero; lia]).
      reflexivity.
  - intros raw H. apply fails_only_short_connect in H. discriminate H.
Qed.

Lemma unpack_mqtt_connect_validates_nothing_witness :
  unpack_mqtt_connect (to_byte 16)
    (to_byte 13 :: bytes_of [0; 4; 88; 88; 88; 88; 9] ++ to_byte 3
       :: pack_u16 60 ++ pack_u16 (Z.of_nat (length (bytes_of [65])))
       ++ bytes_of [65] ++ [])
  = Done ((of_byte (to_byte 13),
           PktConnect {| connect_header := to_byte 16;
                         connect_byte := of_byte (to_byte 3);
                         keepalive := 60;
                         client_id := if Z.of_nat (length (bytes_of [65])) >? 0
                                      then Some (bytes_of [65]) else None;
                         username := None;
                         password := None;
                         will_topic := None;
                         will_message := None |}), [])
  /\ forall raw, unpack_mqtt_connect (to_byte 16) raw <> Fail ProtocolViolation.
Proof.
  apply (unpack_mqtt_connect_validates_nothing (to_byte 16) (to_byte 13) (to_byte 3)
           (bytes_of [0; 4; 88; 88; 88; 88; 9]) (bytes_of [65]) [] 60);
    vm_compute; try reflexivity; try (split; [discriminate | reflexivity]).
Defined.

End Connect.

Section ConnectFlagsOffset.

(** [connect_wire] with the bytes before the flags gathered. *)
Lemma connect_wire_split (lenb name : list byte) (level flags : byte)
    (rest : list byte) :
  connect_wire lenb name level flags rest
  = (lenb ++ pack_u16 (Z.of_nat (length name)) ++ name ++ [level]) ++ flags :: rest
  /\ length (lenb ++ pack_u16 (Z.of_nat (length name)) ++ name ++ [level])
     = connect_flags_offset lenb name.
Proof.
  unfold connect_wire, connect_flags_offset, pack_u16. split.
  - rewrite <- !app_assoc. reflexivity.
  - rewrite !length_app. cbn [length]. lia.
Qed.

(** The flags of [connect_wire] stand at [connect_flags_offset]. *)
Lemma connect_wire_flags (lenb name : list byte) (level flags : byte)
    (rest : list byte) :
  connect_wire lenb name level flags rest !! connect_flags_offset lenb name
  = Some flags.
Proof.
  destruct (connect_wire_split lenb name level flags rest) as [-> Hlen].
  apply list_lookup_middle. symmetry. exact Hlen.
Qed.

(** Byte 8 of [connect_wire] is the flags byte, whatever the flags are,
    exactly when the flags stand at offset 8. *)
Lemma connect_wire_byte_8 (lenb name : list byte) (level : byte)
    (rest : list byte) :
  (forall flags, connect_wire lenb name level flags rest !! 8%nat = Some flags)
  <-> connect_flags_offset lenb name = 8%nat.
Proof.
  split.
  - intros H.
    pose proof (H "000"%byte) as H0. pose proof (H "001"%byte) as H1.
    destruct (connect_wire_split lenb name level "000"%byte rest) as [E0 Hlen].
    destruct (connect_wire_split lenb name level "001"%byte rest) as [E1 _].
    rewrite E0 in H0. rewrite E1 in H1. clear E0 E1 H.
    set (pre := lenb ++ pack_u16 (Z.of_nat (length name)) ++ name ++ [level]) in *.
    destruct (Nat.lt_trichotomy 8 (length pre)) as [Hlt|[Heq|Hgt]].
    + rewrite lookup_app_l in H0, H1 by exact Hlt. congruence.
    + congruence.
    + rewrite lookup_app_r in H0, H1 by lia.
      destruct (8 - length pre)%nat as [|k] eqn:Ek; [lia|].
      cbn in H0, H1. congruence.
  - intros Hoff flags. rewrite <- Hoff. apply connect_wire_flags.
Qed.

(** The decoder reads the flags from byte 8 behind the first byte of the
    fixed header, whatever stands before it. *)
Lemma unpack_mqtt_connect_reads_byte_8 (hdr : mqtt_header) (init rest' : list byte)
    (len : Z) (c : mqtt_connect) :
  unpack_mqtt_connect hdr init = Done ((len, PktConnect c), rest') ->
  exists b, init !! 8%nat = Some b /\ connect_byte c = of_byte b.
Proof.
  unfold unpack_mqtt_connect. intros H.
  apply bind_Done_inv in H as (len' & b1 & _ & H).
  apply bind_Done_inv in H as ([] & b2 & Hseek & H).
  unfold seek in Hseek. injection Hseek as <-.
  apply bind_Done_inv in H as (flags & b3 & Hflags & H).
  apply bind_Done_inv in H as (ka & b4 & _ & H).
  apply bind_Done_inv in H as (cl & b5 & _ & H).
  apply bind_Done_inv in H as (cid & b6 & _ & H).
  apply bind_Done_inv in H as ([wt wm] & b7 & _ & H).
  apply bind_Done_inv in H as (un & b8 & _ & H).
  apply bind_Done_inv in H as (pw & b9 & _ & H).
  injection H as <- <- <-. cbn [connect_byte].
  destruct (drop 8 init) as [|b tl] eqn:Ed; [discriminate|].
  cbn in Hflags. injection Hflags as <- <-.
  exists b. split; [|reflexivity].
  rewrite <- (take_drop 8 init) at 1.
  assert (Hlen : length (take 8 init) = 8%nat).
  { rewrite length_take. apply Nat.min_l.
    destruct (Nat.le_gt_cases 8 (length init)) as [Hle|Hgt]; [exact Hle|].
    rewrite drop_ge in Ed by lia. discriminate. }
  rewrite Ed. apply list_lookup_middle. symmetry. exact Hlen.
Qed.

End ConnectFlagsOffset.

Section ConnectFlagsClaim.




End ConnectFlagsClaim.

(** ** SUBSCRIBE and UNSUBSCRIBE: the tuple loops *)

Section TupleLoops.

Lemma remaining_bytes_subscribe (rb tl : Z) :
  uint64 (uint64 (uint64 (rb - 2) - tl) - 1) = uint64 (rb - (2 + tl + 1)).
Proof.
  unfold uint64, wrap_unsigned.
  change (2 ^ 64) with 18446744073709551616.
  Z.div_mod_to_equations. lia.
Qed.

Lemma remaining_bytes_unsubscribe (rb tl : Z) :
  uint64 (uint64 (rb - 2) - tl) = uint64 (rb - (2 + tl)).
Proof.
  unfold uint64, wrap_unsigned.
  change (2 ^ 64) with 18446744073709551616.
  Z.div_mod_to_equations. lia.
Qed.

(** The counter after one tuple, when the loop came back with a counter
    that is at most the bytes that were left: nothing wrapped. *)
Lemma remaining_bytes_no_wrap (rb k rb' : Z) :
  0 <= rb < 2 ^ 64 -> 0 <= k < 2 ^ 17 -> 0 <= rb' < 2 ^ 63 ->
  uint64 (rb - k) = rb' -> rb = k + rb'.
Proof.
  unfold uint64, wrap_unsigned.
  change (2 ^ 64) with 18446744073709551616.
  change (2 ^ 63) with 9223372036854775808.
  change (2 ^ 17) with 131072.
  intros Hrb Hk Hrb' H. Z.div_mod_to_equations. lia.
Qed.

Lemma subscribe_loop_zero (fuel : nat) (acc : list subscribe_tuple)
    (buf : list byte) :
  subscribe_loop fuel 0 acc buf = Done (acc, buf).
Proof. destruct fuel; reflexivity. Qed.

Lemma subscribe_loop_step (fuel : nat) (rb : Z) (acc : list subscribe_tuple)
    (buf : list byte) :
  0 < rb ->
  subscribe_loop (S fuel) rb acc buf
  = (topic_len ← unpack_u16;
     topic ← unpack_bytes topic_len;
     qos ← unpack_u8;
     subscribe_loop fuel (uint64 (rb - (2 + topic_len + 1)))
       (acc ++ [{| sub_topic_len := topic_len;
                   sub_topic := topic;
                   sub_qos := qos |}])) buf.
Proof.
  intros Hrb. cbn [subscribe_loop].
  destruct (Z.gtb_spec rb 0) as [_|Hle]; [|lia].
  unfold mbind, reader_bind.
  destruct (unpack_u16 buf) as [[tl b1]| | |]; try reflexivity.
  destruct (unpack_bytes tl b1) as [[tp b2]| | |]; try reflexivity.
  destruct (unpack_u8 b2) as [[q b3]| | |]; try reflexivity.
  rewrite remaining_bytes_subscribe. reflexivity.
Qed.

Lemma unsubscribe_loop_zero (fuel : nat) (acc : list unsubscribe_tuple)
    (buf : list byte) :
  unsubscribe_loop fuel 0 acc buf = Done (acc, buf).
Proof. destruct fuel; reflexivity. Qed.

Lemma unsubscribe_loop_step (fuel : nat) (rb : Z) (acc : list unsubscribe_tuple)
    (buf : list byte) :
  0 < rb ->
  unsubscribe_loop (S fuel) rb acc buf
  = (topic_len ← unpack_u16;
     topic ← unpack_bytes topic_len;
     unsubscribe_loop fuel (uint64 (rb - (2 + topic_len)))
       (acc ++ [{| unsub_topic_len := topic_len;
                   unsub_topic := topic |}])) buf.
Proof.
  intros Hrb. cbn [unsubscribe_loop].
  destruct (Z.gtb_spec rb 0) as [_|Hle]; [|lia].
  unfold mbind, reader_bind.
  destruct (unpack_u16 buf) as [[tl b1]| | |]; try reflexivity.
  destruct (unpack_bytes tl b1) as [[tp b2]| | |]; try reflexivity.
  rewrite remaining_bytes_unsubscribe. reflexivity.
Qed.

(** The size of well-formed tuples is the number of their bytes. *)
Lemma subscribe_tuples_size_length (ts : list subscribe_tuple) :
  Forall subscribe_tuple_ok ts ->
  subscribe_tuples_size ts = Z.of_nat (length (subscribe_tuples_wire ts)).
Proof.
  induction 1 as [|t ts (Hlen & Htl & Hq) _ IH]; [reflexivity|].
  unfold subscribe_tuples_size, subscribe_tuples_wire in *.
  cbn [foldr map concat]. rewrite IH, length_app.
  unfold subscribe_tuple_size, subscribe_tuple_wire, pack_u16.
  cbn [app length]. rewrite length_app. cbn [length]. lia.
Qed.

Lemma unsubscribe_tuples_size_length (ts : list unsubscribe_tuple) :
  Forall unsubscribe_tuple_ok ts ->
  unsubscribe_tuples_size ts = Z.of_nat (length (unsubscribe_tuples_wire ts)).
Proof.
  induction 1 as [|t ts (Hlen & Htl) _ IH]; [reflexivity|].
  unfold unsubscribe_tuples_size, unsubscribe_tuples_wire in *.
  cbn [foldr map concat]. rewrite IH, length_app.
  unfold unsubscribe_tuple_size, unsubscribe_tuple_wire, pack_u16.
  cbn [app length]. lia.
Qed.

(** When the loop returns, the tuples it added are the bytes it consumed and
    their sizes add up to the counter it started from. *)
Lemma subscribe_loop_Done (fuel : nat) (rb : Z) (acc ts : list subscribe_tuple)
    (buf rest : list byte) :
  0 <= rb < 2 ^ 64 -> Z.of_nat (length buf) < 2 ^ 63 ->
  subscribe_loop fuel rb acc buf = Done (ts, rest) ->
  exists new,
    ts = acc ++ new
    /\ buf = subscribe_tuples_wire new ++ rest
    /\ rb = subscribe_tuples_size new
    /\ Forall subscribe_tuple_ok new.
Proof.
  revert rb acc buf. induction fuel as [|fuel IH]; intros rb acc buf Hrb Hbuf H.
  - cbn [subscribe_loop] in H. destruct (Z.gtb_spec rb 0); [discriminate|].
    injection H as <- <-. exists []. rewrite app_nil_r.
    repeat split; [cbn; lia | constructor].
  - destruct (Z.le_gt_cases rb 0) as [Hle|Hpos].
    + assert (rb = 0) as -> by lia. rewrite subscribe_loop_zero in H.
      injection H as <- <-. exists []. rewrite app_nil_r.
      repeat split. constructor.
    + rewrite subscribe_loop_step in H by lia.
      apply bind_Done_inv in H as (tl & b1 & H16 & H).
      apply bind_Done_inv in H as (tp & b2 & Hbs & H).
      apply bind_Done_inv in H as (q & b3 & H8 & H).
      apply unpack_u16_Done in H16 as [Htl ->].
      apply unpack_bytes_Done in Hbs as [Htp ->]; [|lia].
      apply unpack_u8_Done in H8 as [Hq ->].
      rewrite !length_app in Hbuf. cbn [length pack_u16] in Hbuf.
      apply IH in H as (new & -> & -> & Hsize & Hok);
        [|apply uint64_range|lia].
      set (t := {| sub_topic_len := tl; sub_topic := tp; sub_qos := q |}).
      assert (Hokt : subscribe_tuple_ok t)
        by (unfold subscribe_tuple_ok; cbn; lia).
      exists (t :: new). repeat split.
      * rewrite <- app_assoc. reflexivity.
      * unfold subscribe_tuples_wire, subscribe_tuple_wire.
        cbn [map concat sub_topic_len sub_topic sub_qos t].
        rewrite <- !app_assoc. reflexivity.
      * unfold subscribe_tuples_size. cbn [foldr].
        fold (subscribe_tuples_size new).
        unfold subscribe_tuple_size. cbn [sub_topic_len t].
        pose proof (subscribe_tuples_size_length new Hok) as Hl.
        rewrite !length_app in Hbuf.
        apply (remaining_bytes_no_wrap rb (2 + tl + 1)) in Hsize; lia.
      * constructor; [exact Hokt | exact Hok].
Qed.

(** On the bytes of well-formed tuples whose sizes add up to the counter the
    loop returns them. *)
Lemma subscribe_loop_complete (new : list subscribe_tuple) :
  forall (fuel : nat) (acc : list subscribe_tuple) (rest : list byte),
    Forall subscribe_tuple_ok new ->
    subscribe_tuples_size new < 2 ^ 64 ->
    (length new <= fuel)%nat ->
    subscribe_loop fuel (subscribe_tuples_size new) acc
      (subscribe_tuples_wire new ++ rest)
    = Done (acc ++ new, rest).
Proof.
  induction new as [|t new IH]; intros fuel acc rest Hok Hsize Hfuel.
  - cbn. rewrite subscribe_loop_zero, app_nil_r. reflexivity.
  - inversion Hok as [|? ? Hokt Hok']; subst.
    pose proof Hokt as (Hlen & Htl & Hq).
    pose proof (subscribe_tuples_size_length new Hok') as Hl.
    unfold subscribe_tuples_size in Hsize |- *. cbn [foldr] in Hsize |- *.
    fold (subscribe_tuples_size new) in Hsize |- *.
    unfold subscribe_tuple_size in Hsize |- *.
    destruct fuel as [|fuel]; [cbn in Hfuel; lia|].
    rewrite subscribe_loop_step by lia.
    unfold subscribe_tuples_wire. cbn [map concat].
    fold (subscribe_tuples_wire new).
    unfold subscribe_tuple_wire. rewrite <- !app_assoc.
    rewrite (bind_Done _ _ _ _ _ (unpack_u16_pack _ _ Htl)).
    rewrite Hlen at 1.
    rewrite (bind_Done _ _ _ _ _ (unpack_bytes_app _ _)).
    cbn [app].
    rewrite (bind_Done _ _ _ _ _ (unpack_u8_byte _ _ Hq)).
    replace (2 + sub_topic_len t + 1 + subscribe_tuples_size new
             - (2 + sub_topic_len t + 1)) with (subscribe_tuples_size new) by lia.
    rewrite uint64_small by lia.
    rewrite IH by (try assumption; cbn in Hfuel; lia).
    rewrite <- app_assoc. cbn [app]. destruct t. reflexivity.
Qed.

(** With more fuel than bytes the loop returns or runs off the buffer; the
    fuel is not what stops it. *)
Lemma subscribe_loop_outcome (fuel : nat) (rb : Z) (acc : list subscribe_tuple)
    (buf : list byte) :
  (length buf < fuel)%nat ->
  (exists ts rest, subscribe_loop fuel rb acc buf = Done (ts, rest))
  \/ subscribe_loop fuel rb acc buf = Fail ShortBuffer.
Proof.
  revert rb acc buf. induction fuel as [|fuel IH]; intros rb acc buf Hfuel; [lia|].
  destruct (Z.le_gt_cases rb 0) as [Hle|Hpos].
  - left. exists acc, buf. cbn [subscribe_loop].
    destruct (Z.gtb_spec rb 0); [lia | reflexivity].
  - rewrite subscribe_loop_step by lia. unfold mbind, reader_bind.
    destruct (unpack_u16 buf) as [[tl b1]|e| |] eqn:H16;
      try (destruct buf as [|? [|? ?]]; discriminate).
    2: { right. apply unpack_u16_Fail in H16 as [-> _]. reflexivity. }
    apply unpack_u16_Done in H16 as [Htl ->].
    rewrite length_app in Hfuel. cbn [length pack_u16] in Hfuel.
    destruct (unpack_bytes tl b1) as [[tp b2]|e| |] eqn:Hbs;
      try (unfold unpack_bytes in Hbs;
           destruct (Z.of_nat (length b1) <? tl); discriminate).
    2: { right. f_equal. exact (fails_only_short_bytes _ _ _ Hbs). }
    apply unpack_bytes_Done in Hbs as [Htp ->]; [|lia].
    rewrite length_app in Hfuel.
    destruct b2 as [|q b3]; [right; reflexivity|].
    cbn [unpack_u8]. apply IH. cbn [length] in Hfuel. lia.
Qed.

Lemma unsubscribe_loop_Done (fuel : nat) (rb : Z)
    (acc ts : list unsubscribe_tuple) (buf rest : list byte) :
  0 <= rb < 2 ^ 64 -> Z.of_nat (length buf) < 2 ^ 63 ->
  unsubscribe_loop fuel rb acc buf = Done (ts, rest) ->
  exists new,
    ts = acc ++ new
    /\ buf = unsubscribe_tuples_wire new ++ rest
    /\ rb = unsubscribe_tuples_size new
    /\ Forall unsubscribe_tuple_ok new.
Proof.
  revert rb acc buf. induction fuel as [|fuel IH]; intros rb acc buf Hrb Hbuf H.
  - cbn [unsubscribe_loop] in H. destruct (Z.gtb_spec rb 0); [discriminate|].
    injection H as <- <-. exists []. rewrite app_nil_r.
    repeat split; [cbn; lia | constructor].
  - destruct (Z.le_gt_cases rb 0) as [Hle|Hpos].
    + assert (rb = 0) as -> by lia. rewrite unsubscribe_loop_zero in H.
      injection H as <- <-. exists []. rewrite app_nil_r.
      repeat split. constructor.
    + rewrite unsubscribe_loop_step in H by lia.
      apply bind_Done_inv in H as (tl & b1 & H16 & H).
      apply bind_Done_inv in H as (tp & b2 & Hbs & H).
      apply unpack_u16_Done in H16 as [Htl ->].
      apply unpack_bytes_Done in Hbs as [Htp ->]; [|lia].
      rewrite !length_app in Hbuf. cbn [length pack_u16] in Hbuf.
      apply IH in H as (new & -> & -> & Hsize & Hok);
        [|apply uint64_range|lia].
      set (t := {| unsub_topic_len := tl; unsub_topic := tp |}).
      assert (Hokt : unsubscribe_tuple_ok t)
        by (unfold unsubscribe_tuple_ok; cbn; lia).
      exists (t :: new). repeat split.
      * rewrite <- app_assoc. reflexivity.
      * unfold unsubscribe_tuples_wire, unsubscribe_tuple_wire.
        cbn [map concat unsub_topic_len unsub_topic t].
        rewrite <- !app_assoc. reflexivity.
      * unfold unsubscribe_tuples_size. cbn [foldr].
        fold (unsubscribe_tuples_size new).
        unfold unsubscribe_tuple_size. cbn [unsub_topic_len t].
        pose proof (unsubscribe_tuples_size_length new Hok) as Hl.
        rewrite !length_app in Hbuf.
        apply (remaining_bytes_no_wrap rb (2 + tl)) in Hsize; lia.
      * constructor; [exact Hokt | exact Hok].
Qed.

Lemma unsubscribe_loop_complete (new : list unsubscribe_tuple) :
  forall (fuel : nat) (acc : list unsubscribe_tuple) (rest : list byte),
    Forall unsubscribe_tuple_ok new ->
    unsubscribe_tuples_size new < 2 ^ 64 ->
    (length new <= fuel)%nat ->
    unsubscribe_loop fuel (unsubscribe_tuples_size new) acc
      (unsubscribe_tuples_wire new ++ rest)
    = Done (acc ++ new, rest).
Proof.
  induction new as [|t new IH]; intros fuel acc rest Hok Hsize Hfuel.
  - cbn. rewrite unsubscribe_loop_zero, app_nil_r. reflexivity.
  - inversion Hok as [|? ? Hokt Hok']; subst.
    pose proof Hokt as (Hlen & Htl).
    pose proof (unsubscribe_tuples_size_length new Hok') as Hl.
    unfold unsubscribe_tuples_size in Hsize |- *. cbn [foldr] in Hsize |- *.
    fold (unsubscribe_tuples_size new) in Hsize |- *.
    unfold unsubscribe_tuple_size in Hsize |- *.
    destruct fuel as [|fuel]; [cbn in Hfuel; lia|].
    rewrite unsubscribe_loop_step by lia.
    unfold unsubscribe_tuples_wire. cbn [map concat].
    fold (unsubscribe_tuples_wire new).
    unfold unsubscribe_tuple_wire. rewrite <- !app_assoc.
    rewrite (bind_Done _ _ _ _ _ (unpack_u16_pack _ _ Htl)).
    rewrite Hlen at 1.
    rewrite (bind_Done _ _ _ _ _ (unpack_bytes_app _ _)).
    replace (2 + unsub_topic_len t + unsubscribe_tuples_size new
             - (2 + unsub_topic_len t)) with (unsubscribe_tuples_size new) by lia.
    rewrite uint64_small by lia.
    rewrite IH by (try assumption; cbn in Hfuel; lia).
    rewrite <- app_assoc. cbn [app]. destruct t. reflexivity.
Qed.

Lemma unsubscribe_loop_outcome (fuel : nat) (rb : Z)
    (acc : list unsubscribe_tuple) (buf : list byte) :
  (length buf < fuel)%nat ->
  (exists ts rest, unsubscribe_loop fuel rb acc buf = Done (ts, rest))
  \/ unsubscribe_loop fuel rb acc buf = Fail ShortBuffer.
Proof.
  revert rb acc buf. induction fuel as [|fuel IH]; intros rb acc buf Hfuel; [lia|].
  destruct (Z.le_gt_cases rb 0) as [Hle|Hpos].
  - left. exists acc, buf. cbn [unsubscribe_loop].
    destruct (Z.gtb_spec rb 0); [lia | reflexivity].
  - rewrite unsubscribe_loop_step by lia. unfold mbind, reader_bind.
    destruct (unpack_u16 buf) as [[tl b1]|e| |] eqn:H16;
      try (destruct buf as [|? [|? ?]]; discriminate).
    2: { right. apply unpack_u16_Fail in H16 as [-> _]. reflexivity. }
    apply unpack_u16_Done in H16 as [Htl ->].
    rewrite length_app in Hfuel. cbn [length pack_u16] in Hfuel.
    destruct (unpack_bytes tl b1) as [[tp b2]|e| |] eqn:Hbs;
      try (unfold unpack_bytes in Hbs;
           destruct (Z.of_nat (length b1) <? tl); discriminate).
    2: { right. f_equal. exact (fails_only_short_bytes _ _ _ Hbs). }
    apply unpack_bytes_Done in Hbs as [Htp ->]; [|lia].
    rewrite length_app in Hfuel. apply IH. lia.
Qed.

End TupleLoops.

Section TupleLoopClaims.

Lemma subscribe_tuples_wire_length (ts : list subscribe_tuple) :
  (length ts <= length (subscribe_tuples_wire ts))%nat.
Proof.
  induction ts as [|t ts IH]; [reflexivity|].
  unfold subscribe_tuples_wire in *. cbn [map concat length].
  rewrite length_app.
  destruct (subscribe_tuple_wire t) as [|b bs] eqn:E;
    [unfold subscribe_tuple_wire, pack_u16 in E; discriminate E|].
  cbn [length]. lia.
Qed.

Lemma unsubscribe_tuples_wire_length (ts : list unsubscribe_tuple) :
  (length ts <= length (unsubscribe_tuples_wire ts))%nat.
Proof.
  induction ts as [|t ts IH]; [reflexivity|].
  unfold unsubscribe_tuples_wire in *. cbn [map concat length].
  rewrite length_app.
  destruct (unsubscribe_tuple_wire t) as [|b bs] eqn:E;
    [unfold unsubscribe_tuple_wire, pack_u16 in E; discriminate E|].
  cbn [length]. lia.
Qed.

(** One iteration on the bytes of a tuple: the counter goes down by the
    size of the tuple modulo 2 ^ 64, whatever it was. *)
Lemma subscribe_loop_tuple (fuel : nat) (rb : Z) (acc : list subscribe_tuple)
    (t : subscribe_tuple) (rest : list byte) :
  subscribe_tuple_ok t -> 0 < rb ->
  subscribe_loop (S fuel) rb acc (subscribe_tuple_wire t ++ rest)
  = subscribe_loop fuel (uint64 (rb - subscribe_tuple_size t)) (acc ++ [t]) rest.
Proof.
  intros (Hlen & Htl & Hq) Hrb. rewrite subscribe_loop_step by exact Hrb.
  unfold subscribe_tuple_wire, subscribe_tuple_size. rewrite <- !app_assoc.
  rewrite (bind_Done _ _ _ _ _ (unpack_u16_pack _ _ Htl)).
  rewrite Hlen at 1.
  rewrite (bind_Done _ _ _ _ _ (unpack_bytes_app _ _)).
  cbn [app].
  rewrite (bind_Done _ _ _ _ _ (unpack_u8_byte _ _ Hq)).
  destruct t. reflexivity.
Qed.

Lemma unsubscribe_loop_tuple (fuel : nat) (rb : Z) (acc : list unsubscribe_tuple)
    (t : unsubscribe_tuple) (rest : list byte) :
  unsubscribe_tuple_ok t -> 0 < rb ->
  unsubscribe_loop (S fuel) rb acc (unsubscribe_tuple_wire t ++ rest)
  = unsubscribe_loop fuel (uint64 (rb - unsubscribe_tuple_size t)) (acc ++ [t]) rest.
Proof.
  intros (Hlen & Htl) Hrb. rewrite unsubscribe_loop_step by exact Hrb.
  unfold unsubscribe_tuple_wire, unsubscribe_tuple_size. rewrite <- !app_assoc.
  rewrite (bind_Done _ _ _ _ _ (unpack_u16_pack _ _ Htl)).
  rewrite Hlen at 1.
  rewrite (bind_Done _ _ _ _ _ (unpack_bytes_app _ _)).
  destruct t. reflexivity.
Qed.

Lemma uint64_wrap (x : Z) : - 2 ^ 64 <= x < 0 -> uint64 x = 2 ^ 64 + x.
Proof.
  intros H. unfold uint64, wrap_unsigned.
  change (2 ^ 64) with 18446744073709551616 in *.
  Z.div_mod_to_equations. lia.
Qed.

(** C10: the loops of [unpack_mqtt_subscribe] and [unpack_mqtt_unsubscribe],
    run with more fuel than the buffer has bytes, on a counter
    [remaining_bytes] that is a [size_t] and a buffer of less than 2 ^ 63
    bytes.  Each loop leaves through its condition and returns tuples exactly
    when the buffer starts with tuples whose declared sizes add up to the
    counter; in every other case it is still running when the reads leave the
    buffer ([ShortBuffer] in the byte reader).  When a tuple declares more
    bytes than the counter has left, the subtraction wraps to
    2 ^ 64 + counter - size and the loop goes on with that counter on the
    bytes behind the tuple. *)
Theorem tuple_loops_stop_on_exact_exhaustion (fuel : nat) (rb : Z)
    (buf : list byte) (t : subscribe_tuple) (u : unsubscribe_tuple) :
  0 <= rb < 2 ^ 64 ->
  Z.of_nat (length buf) < 2 ^ 63 ->
  (length buf < fuel)%nat ->
  subscribe_tuple_ok t ->
  unsubscribe_tuple_ok u ->
  (forall ts rest,
      subscribe_loop fuel rb [] buf = Done (ts, rest)
      <-> buf = subscribe_tuples_wire ts ++ rest
          /\ rb = subscribe_tuples_size ts
          /\ Forall subscribe_tuple_ok ts)
  /\ ((exists ts rest, subscribe_loop fuel rb [] buf = Done (ts, rest))
      \/ subscribe_loop fuel rb [] buf = Fail ShortBuffer)
  /\ (forall ts rest,
         unsubscribe_loop fuel rb [] buf = Done (ts, rest)
         <-> buf = unsubscribe_tuples_wire ts ++ rest
             /\ rb = unsubscribe_tuples_size ts
             /\ Forall unsubscribe_tuple_ok ts)
  /\ ((exists ts rest, unsubscribe_loop fuel rb [] buf = Done (ts, rest))
      \/ unsubscribe_loop fuel rb [] buf = Fail ShortBuffer)
  /\ (0 < rb < subscribe_tuple_size t ->
      subscribe_loop (S fuel) rb [] (subscribe_tuple_wire t ++ buf)
      = subscribe_loop fuel (2 ^ 64 + rb - subscribe_tuple_size t) [t] buf)
  /\ (0 < rb < unsubscribe_tuple_size u ->
      unsubscribe_loop (S fuel) rb [] (unsubscribe_tuple_wire u ++ buf)
      = unsubscribe_loop fuel (2 ^ 64 + rb - unsubscribe_tuple_size u) [u] buf).
Proof.
  intros Hrb Hbuf Hfuel Ht Hu. repeat apply conj.
  - intros ts rest. split.
    + intros H. apply subscribe_loop_Done in H as (new & -> & -> & -> & Hok);
        [|exact Hrb|exact Hbuf]. auto.
    + intros (-> & -> & Hok).
      pose proof (subscribe_tuples_size_length ts Hok) as Hl.
      pose proof (subscribe_tuples_wire_length ts) as Hn.
      rewrite length_app in Hbuf, Hfuel.
      apply (subscribe_loop_complete ts fuel [] rest Hok); lia.
  - apply subscribe_loop_outcome. exact Hfuel.
  - intros ts rest. split.
    + intros H. apply unsubscribe_loop_Done in H as (new & -> & -> & -> & Hok);
        [|exact Hrb|exact Hbuf]. auto.
    + intros (-> & -> & Hok).
      pose proof (unsubscribe_tuples_size_length ts Hok) as Hl.
      pose proof (unsubscribe_tuples_wire_length ts) as Hn.
      rewrite length_app in Hbuf, Hfuel.
      apply (unsubscribe_loop_complete ts fuel [] rest Hok); lia.
  - apply unsubscribe_loop_outcome. exact Hfuel.
  - intros Hwrap. rewrite subscribe_loop_tuple by (exact Ht || lia).
    destruct Ht as (_ & Htl & _). unfold subscribe_tuple_size in *.
    rewrite uint64_wrap by lia. f_equal. lia.
  - intros Hwrap. rewrite unsubscribe_loop_tuple by (exact Hu || lia).
    destruct Hu as (_ & Htl). unfold unsubscribe_tuple_size in *.
    rewrite uint64_wrap by lia. f_equal. lia.
Qed.

End TupleLoopClaims.

Section TupleLoopWitness.

Lemma tuple_loops_stop_on_exact_exhaustion_witness :
  let buf := bytes_of [0; 0; 7] in
  let t := {| sub_topic_len := 2; sub_topic := bytes_of [97; 98]; sub_qos := 0 |} in
  let u := {| unsub_topic_len := 2; unsub_topic := bytes_of [97; 98] |} in
  (forall ts rest,
      subscribe_loop 4 3 [] buf = Done (ts, rest)
      <-> buf = subscribe_tuples_wire ts ++ rest
          /\ 3 = subscribe_tuples_size ts
          /\ Forall subscribe_tuple_ok ts)
  /\ ((exists ts rest, subscribe_loop 4 3 [] buf = Done (ts, rest))
      \/ subscribe_loop 4 3 [] buf = Fail ShortBuffer)
  /\ (forall ts rest,
         unsubscribe_loop 4 3 [] buf = Done (ts, rest)
         <-> buf = unsubscribe_tuples_wire ts ++ rest
             /\ 3 = unsubscribe_tuples_size ts
             /\ Forall unsubscribe_tuple_ok ts)
  /\ ((exists ts rest, unsubscribe_loop 4 3 [] buf = Done (ts, rest))
      \/ unsubscribe_loop 4 3 [] buf = Fail ShortBuffer)
  /\ (0 < 3 < subscribe_tuple_size t ->
      subscribe_loop 5 3 [] (subscribe_tuple_wire t ++ buf)
      = subscribe_loop 4 (2 ^ 64 + 3 - subscribe_tuple_size t) [t] buf)
  /\ (0 < 3 < unsubscribe_tuple_size u ->
      unsubscribe_loop 5 3 [] (unsubscribe_tuple_wire u ++ buf)
      = unsubscribe_loop 4 (2 ^ 64 + 3 - unsubscribe_tuple_size u) [u] buf).
Proof.
  apply (tuple_loops_stop_on_exact_exhaustion 4 3 (bytes_of [0; 0; 7])
           {| sub_topic_len := 2; sub_topic := bytes_of [97; 98]; sub_qos := 0 |}
           {| unsub_topic_len := 2; unsub_topic := bytes_of [97; 98] |}).
  - lia.
  - vm_compute. reflexivity.
  - vm_compute. lia.
  - vm_compute. repeat split; discriminate.
  - vm_compute. repeat split; discriminate.
Defined.

(** What the wrap-around looks like from outside: this SUBSCRIBE declares a
    Remaining Length of 5 (packet id, then three bytes) and a topic of two
    bytes; the PINGREQ behind it (C0 00) is read as the length of a second
    topic, and the decoder is still in its loop when the buffer ends. *)
Example unpack_mqtt_subscribe_runs_into_next_packet :
  unpack_mqtt_packet (bytes_of [130; 5; 0; 1; 0; 2; 97; 98; 0; 192; 0])
  = Fail ShortBuffer
  /\ subscribe_loop 10 3 [] (bytes_of [0; 2; 97; 98; 0; 192; 0])
     = subscribe_loop 9 (2 ^ 64 - 2)
         [{| sub_topic_len := 2; sub_topic := bytes_of [97; 98]; sub_qos := 0 |}]
         (bytes_of [192; 0]).
Proof. split; vm_compute; reflexivity. Qed.

End TupleLoopWitness.

(** ** SUBSCRIBE: the requested QoS *)

Section SubscribeQos.

(** C6, as the claim states it, fails on the code: the SUBSCRIBE
    82 06 00 01 00 01 61 03 asks for QoS 3 on topic [a], and it is decoded
    with that QoS, without a failure. *)
Lemma unpack_mqtt_subscribe_accepts_qos_3 :
  unpack_mqtt_packet (bytes_of [130; 6; 0; 1; 0; 1; 97; 3])
  = Done (6,
          PktSubscribe
            {| subscribe_header := to_byte 130;
               subscribe_pkt_id := 1;
               subscribe_tuples_len := 1;
               subscribe_tuples :=
                 [{| sub_topic_len := 1; sub_topic := bytes_of [97]; sub_qos := 3 |}] |}).
Proof. vm_compute. reflexivity. Qed.

(** C6, amended: when decoding a SUBSCRIBE packet, the requested-QoS byte of
    every (topic-filter, requested-QoS) tuple is stored as it is read, with
    no check of its value: a packet whose tuples carry any QoS bytes at all
    (0 to 255) is decoded to exactly those tuples, and on no input does the
    decoder fail with [ProtocolViolation]. *)
Theorem unpack_mqtt_subscribe_keeps_qos (hdr : mqtt_header) (pkt_id n : Z)
    (ts : list subscribe_tuple) (lenb rest : list byte) :
  Forall subscribe_tuple_ok ts ->
  0 <= pkt_id < 2 ^ 16 ->
  2 + subscribe_tuples_size ts <= 268435455 ->
  mqtt_encode_length (2 + subscribe_tuples_size ts) = Some (n, lenb) ->
  unpack_mqtt_subscribe hdr
    (lenb ++ pack_u16 pkt_id ++ subscribe_tuples_wire ts ++ rest)
  = Done ((2 + subscribe_tuples_size ts,
           PktSubscribe {| subscribe_header := hdr;
                           subscribe_pkt_id := pkt_id;
                           subscribe_tuples_len := Z.of_nat (length ts);
                           subscribe_tuples := ts |}), rest)
  /\ forall raw, unpack_mqtt_subscribe hdr raw <> Fail ProtocolViolation.
Proof.
  intros Hok Hid Hsize Henc. split.
  - pose proof (subscribe_tuples_size_length ts Hok) as Hl.
    pose proof (subscribe_tuples_wire_length ts) as Hn.
    destruct (encode_decode_length (2 + subscribe_tuples_size ts))
      as (bs & Henc' & _ & Hdec); [lia|].
    rewrite Henc in Henc'. injection Henc' as -> ->.
    unfold unpack_mqtt_subscribe.
    rewrite (bind_Done _ _ _ _ _ (Hdec _)).
    rewrite (bind_Done _ _ _ _ _ (unpack_u16_pack _ _ Hid)).
    replace (uint64 (2 + subscribe_tuples_size ts - 2))
      with (subscribe_tuples_size ts) by (rewrite uint64_small; lia).
    unfold mbind at 1, reader_bind at 1.
    rewrite (subscribe_loop_complete ts _ [] rest Hok) by
      (rewrite ?length_app; lia).
    reflexivity.
  - intros raw H. apply fails_only_short_subscribe in H. discriminate H.
Qed.

Lemma unpack_mqtt_subscribe_keeps_qos_witness :
  let ts := [{| sub_topic_len := 1; sub_topic := bytes_of [97]; sub_qos := 3 |};
             {| sub_topic_len := 0; sub_topic := []; sub_qos := 255 |}] in
  unpack_mqtt_subscribe (to_byte 130)
    (bytes_of [9] ++ pack_u16 1 ++ subscribe_tuples_wire ts ++ [])
  = Done ((2 + subscribe_tuples_size ts,
           PktSubscribe {| subscribe_header := to_byte 130;
                           subscribe_pkt_id := 1;
                           subscribe_tuples_len := Z.of_nat (length ts);
                           subscribe_tuples := ts |}), [])
  /\ forall raw, unpack_mqtt_subscribe (to_byte 130) raw <> Fail ProtocolViolation.
Proof.
  apply (unpack_mqtt_subscribe_keeps_qos (to_byte 130) 1 1
           [{| sub_topic_len := 1; sub_topic := bytes_of [97]; sub_qos := 3 |};
            {| sub_topic_len := 0; sub_topic := []; sub_qos := 255 |}]
           (bytes_of [9]) []).
  - repeat constructor; vm_compute; discriminate.
  - lia.
  - vm_compute. discriminate.
  - vm_compute. reflexivity.
Defined.

End SubscribeQos.

(** ** Event loop: one cycle *)

Section EvloopCycle.

Context {world : Type}.

Lemma apply_rearm_max_events (el : evloop world) (fd : Z) (r : rearm) :
  max_events (apply_rearm el fd r) = max_events el.
Proof. destruct r; reflexivity. Qed.

Lemma apply_rearm_closures (el : evloop world) (fd fd' : Z) (r : rearm) :
  fd <> fd' -> closures (apply_rearm el fd r) !! fd' = closures el !! fd'.
Proof.
  intros Hne. destruct r; cbn [apply_rearm closures]; try reflexivity.
  apply lookup_delete_ne. exact Hne.
Qed.

(** The events of one wait, dispatched in order from a loop [el] that still
    has the closures of [el0] for them: every callback runs, on the state
    the callbacks before it left. *)
Lemma dispatch_events (el0 : evloop world) (fds : list Z) :
  forall (el : evloop world) (w : world) (ran : list Z),
    NoDup fds ->
    (forall fd, fd ∈ fds -> is_Some (closures el0 !! fd)) ->
    (forall fd, fd ∈ fds -> closures el !! fd = closures el0 !! fd) ->
    exists el',
      foldl dispatch_event (el, w, ran) fds
      = (el', foldl (run_registered el0) w fds, ran ++ fds)
      /\ max_events el' = max_events el.
Proof.
  induction fds as [|fd fds IH]; intros el w ran Hnd Hreg Hsame.
  - exists el. cbn. rewrite app_nil_r. split; reflexivity.
  - apply NoDup_cons in Hnd as [Hnotin Hnd].
    cbn [foldl]. unfold dispatch_event at 2, run_registered at 2.
    rewrite (Hsame fd) by set_solver.
    destruct (Hreg fd) as [c Hc]; [set_solver|]. rewrite Hc.
    destruct (call c w) as [w' r] eqn:Ecall. cbn [fst].
    destruct (IH (apply_rearm el fd r) w' (ran ++ [fd])) as (el' & Hfold & Hmax).
    + exact Hnd.
    + intros fd' Hin. apply Hreg. set_solver.
    + intros fd' Hin. rewrite apply_rearm_closures by set_solver.
      apply Hsame. set_solver.
    + exists el'. rewrite Hfold, <- app_assoc, Hmax, apply_rearm_max_events.
      split; reflexivity.
Qed.


End EvloopCycle.

Section EvloopCycleWitness.


End EvloopCycleWitness.

(** ** The fuel of the tuple loops is never what stops a decoder *)

Section Fuel.

Lemma decode_length_loop_shrinks (buf buf' : list byte) (m v x : Z) :
  decode_length_loop m v buf = Done (x, buf') -> (length buf' < length buf)%nat.
Proof.
  revert m v. induction buf as [|b buf IH]; intros m v; cbn [decode_length_loop].
  - discriminate.
  - destruct (negb (Z.land (of_char b) 128 =? 0)).
    + intros H. apply IH in H. cbn [length]. lia.
    + intros H. injection H as _ <-. cbn [length]. lia.
Qed.

Lemma unpack_mqtt_subscribe_fuel (hdr : mqtt_header) (raw : list byte) :
  unpack_mqtt_subscribe hdr raw <> OutOfFuel.
Proof.
  unfold unpack_mqtt_subscribe, mbind, reader_bind.
  destruct (mqtt_decode_length raw) as [[len b1]| | |] eqn:Hlen; try discriminate.
  - apply decode_length_loop_shrinks in Hlen.
    destruct (unpack_u16 b1) as [[pid b2]| | |] eqn:Hid;
      try (destruct b1 as [|? [|? ?]]; discriminate).
    apply unpack_u16_Done in Hid as [_ ->].
    rewrite length_app in Hlen.
    destruct (subscribe_loop_outcome (length raw) (uint64 (len - 2)) [] b2)
      as [(ts & rest & ->)| ->]; [lia|discriminate..].
  - unfold mqtt_decode_length in Hlen. clear -Hlen. exfalso.
    revert Hlen. generalize 1 0. induction raw as [|b raw IH]; intros m v;
      cbn [decode_length_loop]; [discriminate|].
    destruct (negb (Z.land (of_char b) 128 =? 0)); [apply IH | discriminate].
Qed.

Lemma unpack_mqtt_unsubscribe_fuel (hdr : mqtt_header) (raw : list byte) :
  unpack_mqtt_unsubscribe hdr raw <> OutOfFuel.
Proof.
  unfold unpack_mqtt_unsubscribe, mbind, reader_bind.
  destruct (mqtt_decode_length raw) as [[len b1]| | |] eqn:Hlen; try discriminate.
  - apply decode_length_loop_shrinks in Hlen.
    destruct (unpack_u16 b1) as [[pid b2]| | |] eqn:Hid;
      try (destruct b1 as [|? [|? ?]]; discriminate).
    apply unpack_u16_Done in Hid as [_ ->].
    rewrite length_app in Hlen.
    destruct (unsubscribe_loop_outcome (length raw) (uint64 (len - 2)) [] b2)
      as [(ts & rest & ->)| ->]; [lia|discriminate..].
  - unfold mqtt_decode_length in Hlen. clear -Hlen. exfalso.
    revert Hlen. generalize 1 0. induction raw as [|b raw IH]; intros m v;
      cbn [decode_length_loop]; [discriminate|].
    destruct (negb (Z.land (of_char b) 128 =? 0)); [apply IH | discriminate].
Qed.

End Fuel.

(** * More of the codec *)

(** ** The Remaining Length decoder on any buffer *)

Section DecodeLength.

Lemma decode_length_loop_stops (pre : list byte) (last : byte) (rest : list byte) :
  forall m v,
    Forall continues pre -> of_byte last < 128 ->
    exists v', decode_length_loop m v (pre ++ last :: rest) = Done (v', rest)
               /\ 0 <= v' < 2 ^ 64.
Proof.
  induction pre as [|b pre IH]; intros m v Hpre Hlast.
  - cbn [app decode_length_loop]. rewrite char_high.
    destruct (Z.ltb_spec (of_byte last) 128) as [_|Hge]; [|lia]. cbn [negb].
    eexists. split; [reflexivity | apply uint64_range].
  - apply Forall_cons in Hpre as [Hb Hpre]. unfold continues in Hb.
    cbn [app decode_length_loop]. rewrite char_high.
    destruct (Z.ltb_spec (of_byte b) 128) as [Hlt|_]; [lia|]. cbn [negb].
    apply IH; assumption.
Qed.

(** X1: the decoder consumes length bytes up to and including the first one
    whose high bit is clear, however many come before it: nothing bounds
    their number. *)
Theorem mqtt_decode_length_stops_at_first_clear_byte (pre : list byte)
    (last : byte) (rest : list byte) :
  Forall continues pre -> of_byte last < 128 ->
  exists v, mqtt_decode_length (pre ++ last :: rest) = Done (v, rest)
            /\ 0 <= v < 2 ^ 64.
Proof. intros Hpre Hlast. apply decode_length_loop_stops; assumption. Qed.

Lemma mqtt_decode_length_stops_at_first_clear_byte_witness :
  exists v,
    mqtt_decode_length (bytes_of [255; 255; 255; 255; 255; 255] ++ to_byte 1 :: [])
    = Done (v, [])
    /\ 0 <= v < 2 ^ 64.
Proof.
  apply (mqtt_decode_length_stops_at_first_clear_byte
           (bytes_of [255; 255; 255; 255; 255; 255]) (to_byte 1) []).
  - repeat constructor; vm_compute; discriminate.
  - vm_compute. reflexivity.
Defined.

Lemma decode_length_loop_past_end (buf : list byte) :
  forall m v, Forall continues buf -> decode_length_loop m v buf = Undef ReadPastEnd.
Proof.
  induction buf as [|b buf IH]; intros m v Hbuf; [reflexivity|].
  apply Forall_cons in Hbuf as [Hb Hbuf]. unfold continues in Hb.
  cbn [decode_length_loop]. rewrite char_high.
  destruct (Z.ltb_spec (of_byte b) 128) as [Hlt|_]; [lia|]. cbn [negb].
  apply IH. exact Hbuf.
Qed.

(** X2: a buffer in which every byte has its high bit set, the empty buffer
    among them, sends the decoder behind the end of the buffer: it has no
    bound of its own. *)
Theorem mqtt_decode_length_reads_past_end (buf : list byte) :
  Forall continues buf -> mqtt_decode_length buf = Undef ReadPastEnd.
Proof. apply decode_length_loop_past_end. Qed.

Lemma mqtt_decode_length_reads_past_end_witness :
  mqtt_decode_length (bytes_of [128; 255; 129]) = Undef ReadPastEnd.
Proof.
  apply (mqtt_decode_length_reads_past_end (bytes_of [128; 255; 129])).
  repeat constructor; vm_compute; discriminate.
Defined.

Lemma continues_digit (b : byte) :
  continues b -> b = to_byte (Z.lor (of_byte b mod 128) 128)
                 /\ 0 <= of_byte b mod 128 < 128.
Proof.
  unfold continues. intros Hb. pose proof (of_byte_range b) as Hr.
  assert (Hm : of_byte b mod 128 = of_byte b - 128)
    by (Z.div_mod_to_equations; lia).
  split; [|lia]. rewrite lor_128 by lia. rewrite Hm.
  replace (of_byte b - 128 + 128) with (of_byte b) by lia.
  symmetry. apply to_byte_of_byte.
Qed.

Lemma clear_digit (b : byte) :
  of_byte b < 128 -> b = to_byte (of_byte b mod 128)
                     /\ 0 <= of_byte b mod 128 < 128.
Proof.
  intros Hb. pose proof (of_byte_range b) as Hr.
  rewrite Z.mod_small by lia. split; [|lia].
  symmetry. apply to_byte_of_byte.
Qed.

(** X3: on at most four length bytes the decoder returns the base-128 number
    they spell and leaves the cursor behind them; the number is at most
    268435455.  Leading digits may be zero, so several encodings decode to
    one length. *)
Theorem mqtt_decode_length_value (pre : list byte) (last : byte)
    (rest : list byte) :
  (length pre <= 3)%nat -> Forall continues pre -> of_byte last < 128 ->
  mqtt_decode_length (pre ++ last :: rest)
  = Done (digits_value (pre ++ [last]), rest)
  /\ 0 <= digits_value (pre ++ [last]) <= 268435455.
Proof.
  intros Hlen Hpre Hlast.
  destruct (clear_digit last Hlast) as [El Hl].
  destruct pre as [|b1 [|b2 [|b3 [|b4 pre]]]]; [| | | |cbn in Hlen; lia];
    repeat match goal with
      | H : Forall continues (_ :: _) |- _ =>
          apply Forall_cons in H as [?%continues_digit ?]
      end;
    repeat match goal with H : _ /\ _ |- _ => destruct H end;
    unfold mqtt_decode_length, digits_value; cbn [app foldr];
    repeat match goal with
      | H : ?b = to_byte (Z.lor _ 128) |- context [decode_length_loop _ _ (?b :: _)] =>
          rewrite H at 1; rewrite decode_length_continue by lia
      end;
    rewrite El at 1; rewrite decode_length_stop by lia;
    (split; [f_equal; f_equal; lia | lia]).
Qed.

Lemma mqtt_decode_length_value_witness :
  mqtt_decode_length (bytes_of [128; 128] ++ to_byte 0 :: bytes_of [7])
  = Done (digits_value (bytes_of [128; 128] ++ [to_byte 0]), bytes_of [7])
  /\ 0 <= digits_value (bytes_of [128; 128] ++ [to_byte 0]) <= 268435455.
Proof.
  apply (mqtt_decode_length_value (bytes_of [128; 128]) (to_byte 0) (bytes_of [7])).
  - vm_compute. lia.
  - repeat constructor; vm_compute; discriminate.
  - vm_compute. reflexivity.
Defined.

End DecodeLength.

(** ** The Remaining Length encoder: the shape of what it writes *)

Section EncodeLength.

Lemma of_byte_continuation (d : Z) :
  0 <= d < 128 -> of_byte (to_byte (Z.lor d 128)) = d + 128.
Proof.
  intros Hd. rewrite of_byte_to_byte, lor_128 by exact Hd.
  apply Z.mod_small. lia.
Qed.

Lemma of_byte_digit (d : Z) : 0 <= d < 128 -> of_byte (to_byte d) = d.
Proof. intros Hd. rewrite of_byte_to_byte. apply Z.mod_small. lia. Qed.

(** X4: for a length below 128 ^ 4 the encoder writes the shortest encoding:
    every byte but the last has its high bit set, the last has it clear and
    is not zero unless it is the only one, and the number of bytes is 1 below
    128, 2 below 128 ^ 2, 3 below 128 ^ 3 and 4 from there on. *)
Theorem mqtt_encode_length_shortest (L : Z) :
  0 <= L < 128 ^ 4 ->
  exists (pre : list byte) (last : byte),
    mqtt_encode_length L = Some (Z.of_nat (length pre) + 1, pre ++ [last])
    /\ Forall continues pre
    /\ of_byte last < 128
    /\ (pre <> [] -> 0 < of_byte last)
    /\ Z.of_nat (length pre) + 1
       = (if L <? 128 then 1
          else if L <? 128 ^ 2 then 2
               else if L <? 128 ^ 3 then 3 else 4).
Proof.
  intros HL. unfold mqtt_encode_length.
  rewrite uint64_small by lia.
  change (Z.to_nat (MAX_LEN_BYTES + 1)) with 5%nat.
  change (128 ^ 2) with 16384. change (128 ^ 3) with 2097152.
  change (128 ^ 4) with 268435456 in HL.
  encode_step; [encode_step; [encode_step; [encode_step; [encode_step|]|]|]|];
    cbn [app];
    try (exfalso; Z.div_mod_to_equations; lia);
    match goal with
    | |- context [Some (_, ?l)] =>
        let p := eval cbv beta iota fix delta [List.removelast] in (List.removelast l) in
        let x := eval cbv beta iota fix delta [List.last] in (List.last l "000"%byte) in
        exists p, x
    end;
    (split; [reflexivity|]).
  all: split;
    [repeat (apply List.Forall_cons); try apply List.Forall_nil; unfold continues;
     rewrite of_byte_continuation; Z.div_mod_to_equations; lia|].
  all: split; [rewrite of_byte_digit; Z.div_mod_to_equations; lia|].
  all: split; [intros Hne; try (exfalso; apply Hne; reflexivity);
               rewrite of_byte_digit; Z.div_mod_to_equations; lia|].
  all: cbn [length];
    repeat match goal with
      | |- context [?a <? ?b] => destruct (Z.ltb_spec a b)
      end;
    try reflexivity; exfalso; Z.div_mod_to_equations; lia.
Qed.

Lemma mqtt_encode_length_shortest_witness :
  exists (pre : list byte) (last : byte),
    mqtt_encode_length 16384 = Some (Z.of_nat (length pre) + 1, pre ++ [last])
    /\ Forall continues pre
    /\ of_byte last < 128
    /\ (pre <> [] -> 0 < of_byte last)
    /\ Z.of_nat (length pre) + 1
       = (if 16384 <? 128 then 1
          else if 16384 <? 128 ^ 2 then 2
               else if 16384 <? 128 ^ 3 then 3 else 4).
Proof. apply (mqtt_encode_length_shortest 16384). lia. Defined.

End EncodeLength.

Section EncodeDecode.

(** X5: below 128 ^ 4 two lengths with the same encoding are the same
    length. *)
Theorem mqtt_encode_length_injective (L1 L2 : Z) :
  0 <= L1 < 128 ^ 4 -> 0 <= L2 < 128 ^ 4 ->
  mqtt_encode_length L1 = mqtt_encode_length L2 -> L1 = L2.
Proof.
  intros H1 H2 E.
  destruct (encode_decode_length L1 H1) as (bs1 & E1 & _ & D1).
  destruct (encode_decode_length L2 H2) as (bs2 & E2 & _ & D2).
  rewrite E, E2 in E1. injection E1 as _ <-.
  specialize (D1 []). specialize (D2 []). rewrite D2 in D1.
  injection D1 as ->. reflexivity.
Qed.

Lemma mqtt_encode_length_injective_witness : 300 = 44 + 2 * 128.
Proof.
  apply (mqtt_encode_length_injective 300 (44 + 2 * 128));
    [lia | lia | vm_compute; reflexivity].
Defined.

(** The four bytes the encoder writes for a length of 128 ^ 4 or more. *)
Lemma encode_length_big (len : Z) :
  128 ^ 4 <= len < 2 ^ 64 ->
  mqtt_encode_length len
  = Some (4, [to_byte (Z.lor (len mod 128) 128);
              to_byte (Z.lor ((len / 128) mod 128) 128);
              to_byte (Z.lor ((len / 128 / 128) mod 128) 128);
              to_byte (Z.lor ((len / 128 / 128 / 128) mod 128) 128)]).
Proof.
  intros Hlen. unfold mqtt_encode_length.
  rewrite uint64_small by lia.
  change (Z.to_nat (MAX_LEN_BYTES + 1)) with 5%nat.
  change (128 ^ 4) with 268435456 in Hlen.
  encode_step; [encode_step; [encode_step; [encode_step; [encode_step|]|]|]|];
    try (exfalso; Z.div_mod_to_equations; lia).
  reflexivity.
Qed.

(** X6: what the encoder writes for a length of 128 ^ 4 or more does not
    decode on its own.  All four bytes have the high bit set, so the decoder
    run on them alone reads behind their end, and run on them with more bytes
    behind it takes those bytes for further digits of a length that starts
    with the low 28 bits of the encoded one. *)
Theorem mqtt_encode_length_truncated_decoding (len : Z) :
  128 ^ 4 <= len < 2 ^ 64 ->
  exists bs,
    mqtt_encode_length len = Some (4, bs)
    /\ mqtt_decode_length bs = Undef ReadPastEnd
    /\ forall rest,
         mqtt_decode_length (bs ++ rest)
         = decode_length_loop (128 ^ 4) (len mod 128 ^ 4) rest.
Proof.
  intros Hlen. eexists. split; [apply encode_length_big; exact Hlen|].
  assert (Hd : forall d, 0 <= d < 128 -> continues (to_byte (Z.lor d 128)))
    by (intros d Hd; unfold continues; rewrite of_byte_continuation; lia).
  assert (H1 : 0 <= len mod 128 < 128) by (apply Z.mod_pos_bound; lia).
  assert (H2 : 0 <= (len / 128) mod 128 < 128) by (apply Z.mod_pos_bound; lia).
  assert (H3 : 0 <= (len / 128 / 128) mod 128 < 128)
    by (apply Z.mod_pos_bound; lia).
  assert (H4 : 0 <= (len / 128 / 128 / 128) mod 128 < 128)
    by (apply Z.mod_pos_bound; lia).
  split.
  - apply decode_length_loop_past_end. repeat apply List.Forall_cons; auto.
  - intros rest. cbn [app].
    rewrite decode_length_four_continuation_bytes by (apply Hd; assumption).
    f_equal. rewrite !of_byte_continuation by assumption.
    change (128 ^ 4) with 268435456. change (128 ^ 3) with 2097152.
    change (128 ^ 2) with 16384.
    clear. Z.div_mod_to_equations. lia.
Qed.

Lemma mqtt_encode_length_truncated_decoding_witness :
  exists bs,
    mqtt_encode_length (2 ^ 32 + 5) = Some (4, bs)
    /\ mqtt_decode_length bs = Undef ReadPastEnd
    /\ forall rest,
         mqtt_decode_length (bs ++ rest)
         = decode_length_loop (128 ^ 4) ((2 ^ 32 + 5) mod 128 ^ 4) rest.
Proof. apply (mqtt_encode_length_truncated_decoding (2 ^ 32 + 5)). lia. Defined.

End EncodeDecode.

Section DecodeEncode.

(** One iteration of the encoder on a length given by its lowest digit and
    the rest. *)
Lemma encode_length_loop_digit (fuel : nat) (buf : list byte) (bytes d q : Z) :
  0 <= d < 128 -> 0 <= q -> bytes + 1 <= MAX_LEN_BYTES ->
  encode_length_loop (S fuel) buf bytes (d + 128 * q)
  = if q >? 0
    then encode_length_loop fuel (buf ++ [to_byte (Z.lor d 128)]) (bytes + 1) q
    else Some (bytes + 1, buf ++ [to_byte d]).
Proof.
  intros Hd Hq Hb. rewrite encode_length_loop_step.
  destruct (Z.gtb_spec (bytes + 1) MAX_LEN_BYTES) as [|_]; [lia|].
  replace ((d + 128 * q) / 128) with q by (Z.div_mod_to_equations; lia).
  replace ((d + 128 * q) mod 128) with d by (Z.div_mod_to_equations; lia).
  reflexivity.
Qed.

(** X7: the round trip from bytes to bytes.  Length bytes in the shortest
    form (at most four, all but the last with the high bit set, the last
    clear and not zero unless alone) are what the encoder writes for the
    number they spell. *)
Theorem mqtt_encode_length_of_digits (pre : list byte) (last : byte) :
  (length pre <= 3)%nat -> Forall continues pre -> of_byte last < 128 ->
  (pre <> [] -> 0 < of_byte last) ->
  mqtt_encode_length (digits_value (pre ++ [last]))
  = Some (Z.of_nat (length pre) + 1, pre ++ [last]).
Proof.
  intros Hlen Hpre Hlast Hnz.
  destruct (clear_digit last Hlast) as [El Hl].
  assert (Hlast' : pre <> [] -> 0 < of_byte last mod 128).
  { intros Hne. rewrite Z.mod_small by (pose proof (of_byte_range last); lia).
    apply Hnz. exact Hne. }
  assert (Hbig : 0 <= digits_value (pre ++ [last]) < 2 ^ 64).
  { clear -Hlen Hl. unfold digits_value.
    destruct pre as [|b1 [|b2 [|b3 [|b4 pre]]]]; [| | | |cbn in Hlen; lia];
      cbn [app foldr];
      repeat match goal with
        | |- context [of_byte ?b mod 128] =>
            pose proof (Z.mod_pos_bound (of_byte b) 128 ltac:(lia));
            generalize dependent (of_byte b mod 128); intros
        end; lia. }
  unfold mqtt_encode_length. rewrite uint64_small by exact Hbig. clear Hbig.
  change (Z.to_nat (MAX_LEN_BYTES + 1)) with 5%nat.
  unfold digits_value.
  destruct pre as [|b1 [|b2 [|b3 [|b4 pre]]]]; [| | | |cbn in Hlen; lia];
    repeat match goal with
      | H : Forall continues (_ :: _) |- _ =>
          apply Forall_cons in H as [?%continues_digit ?]
      end;
    repeat match goal with H : _ /\ _ |- _ => destruct H end;
    cbn [app foldr length];
    repeat (rewrite encode_length_loop_digit by (unfold MAX_LEN_BYTES; lia);
            match goal with
            | |- context [?q >? 0] =>
                destruct (Z.gtb_spec q 0);
                [|try (exfalso; specialize (Hlast' ltac:(discriminate)); lia)]
            end;
            try (exfalso; lia));
    cbn [app]; repeat f_equal; congruence.
Qed.

Lemma mqtt_encode_length_of_digits_witness :
  mqtt_encode_length (digits_value (bytes_of [172] ++ [to_byte 2]))
  = Some (Z.of_nat (length (bytes_of [172])) + 1, bytes_of [172] ++ [to_byte 2]).
Proof.
  apply (mqtt_encode_length_of_digits (bytes_of [172]) (to_byte 2)).
  - vm_compute. lia.
  - repeat constructor; vm_compute; discriminate.
  - vm_compute. reflexivity.
  - intros _. vm_compute. reflexivity.
Defined.

End DecodeEncode.

(** ** Whole packets: what a well-formed packet decodes to *)

Section WellFormedPackets.

(** What the encoder wrote for a length below 128 ^ 4 decodes to it. *)
Lemma encoded_length_decodes (L n : Z) (lenb : list byte) :
  0 <= L < 128 ^ 4 -> mqtt_encode_length L = Some (n, lenb) ->
  forall rest, mqtt_decode_length (lenb ++ rest) = Done (L, rest).
Proof.
  intros HL Henc.
  destruct (encode_decode_length L HL) as (bs & Henc' & _ & Hdec).
  rewrite Henc in Henc'. injection Henc' as _ ->. exact Hdec.
Qed.

(** X8: a PUBACK, PUBREC, PUBREL or PUBCOMP decodes to its packet id and
    the Remaining Length as return code.  The Remaining Length is taken as it
    is, whether it is the 2 of an acknowledgement or not, and what follows the
    packet id is not looked at. *)
Theorem unpack_mqtt_packet_ack (b : byte) (len n pkt_id : Z)
    (lenb rest : list byte) :
  4 <= header_type b <= 7 ->
  0 <= len < 128 ^ 4 ->
  mqtt_encode_length len = Some (n, lenb) ->
  0 <= pkt_id < 2 ^ 16 ->
  unpack_mqtt_packet (b :: lenb ++ pack_u16 pkt_id ++ rest)
  = Done (len, PktAck {| ack_header := b; ack_pkt_id := pkt_id |}).
Proof.
  intros Ht Hlen Henc Hid.
  pose proof (encoded_length_decodes len n lenb Hlen Henc) as Hdec.
  assert (Hcall : call_handler unpack_mqtt_ack b (lenb ++ pack_u16 pkt_id ++ rest)
                  = Done (len, PktAck {| ack_header := b; ack_pkt_id := pkt_id |})).
  { unfold call_handler, unpack_mqtt_ack.
    rewrite (bind_Done _ _ _ _ _ (Hdec _)).
    rewrite (bind_Done _ _ _ _ _ (unpack_u16_pack _ _ Hid)).
    cbn. rewrite int32_small by (change (128 ^ 4) with 268435456 in Hlen; lia).
    reflexivity. }
  unfold unpack_mqtt_packet. cbv zeta.
  assert (Hcases : header_type b = 4 \/ header_type b = 5
                   \/ header_type b = 6 \/ header_type b = 7) by lia.
  destruct Hcases as [E|[E|[E|E]]]; rewrite E; exact Hcall.
Qed.

Lemma unpack_mqtt_packet_ack_witness :
  unpack_mqtt_packet (to_byte 98 :: bytes_of [2] ++ pack_u16 7 ++ bytes_of [192; 0])
  = Done (2, PktAck {| ack_header := to_byte 98; ack_pkt_id := 7 |}).
Proof.
  apply (unpack_mqtt_packet_ack (to_byte 98) 2 1 7 (bytes_of [2]) (bytes_of [192; 0]));
    vm_compute; try reflexivity; split; (discriminate || reflexivity).
Defined.

(** X9: an UNSUBSCRIBE whose Remaining Length is the packet id and the
    topic filters exactly decodes to the packet id and those filters, in
    order, with their declared lengths; the list may be empty. *)
Theorem unpack_mqtt_unsubscribe_decodes (hdr : mqtt_header) (pkt_id n : Z)
    (ts : list unsubscribe_tuple) (lenb rest : list byte) :
  Forall unsubscribe_tuple_ok ts ->
  0 <= pkt_id < 2 ^ 16 ->
  2 + unsubscribe_tuples_size ts < 128 ^ 4 ->
  mqtt_encode_length (2 + unsubscribe_tuples_size ts) = Some (n, lenb) ->
  unpack_mqtt_unsubscribe hdr
    (lenb ++ pack_u16 pkt_id ++ unsubscribe_tuples_wire ts ++ rest)
  = Done ((2 + unsubscribe_tuples_size ts,
           PktUnsubscribe {| unsubscribe_header := hdr;
                             unsubscribe_pkt_id := pkt_id;
                             unsubscribe_tuples_len := Z.of_nat (length ts);
                             unsubscribe_tuples := ts |}), rest).
Proof.
  intros Hok Hid Hsize Henc.
  pose proof (unsubscribe_tuples_size_length ts Hok) as Hl.
  pose proof (unsubscribe_tuples_wire_length ts) as Hn.
  assert (HL : 0 <= 2 + unsubscribe_tuples_size ts < 128 ^ 4)
    by (split; [lia | exact Hsize]).
  pose proof (encoded_length_decodes _ n lenb HL Henc) as Hdec.
  unfold unpack_mqtt_unsubscribe.
  rewrite (bind_Done _ _ _ _ _ (Hdec _)).
  rewrite (bind_Done _ _ _ _ _ (unpack_u16_pack _ _ Hid)).
  change (128 ^ 4) with 268435456 in Hsize.
  replace (uint64 (2 + unsubscribe_tuples_size ts - 2))
    with (unsubscribe_tuples_size ts) by (rewrite uint64_small; lia).
  unfold mbind at 1, reader_bind at 1.
  rewrite (unsubscribe_loop_complete ts _ [] rest Hok) by
    (rewrite ?length_app; lia).
  reflexivity.
Qed.

Lemma unpack_mqtt_unsubscribe_decodes_witness :
  let ts := [{| unsub_topic_len := 3; unsub_topic := bytes_of [97; 47; 98] |};
             {| unsub_topic_len := 0; unsub_topic := [] |}] in
  unpack_mqtt_unsubscribe (to_byte 162)
    (bytes_of [9] ++ pack_u16 1 ++ unsubscribe_tuples_wire ts ++ [])
  = Done ((2 + unsubscribe_tuples_size ts,
           PktUnsubscribe {| unsubscribe_header := to_byte 162;
                             unsubscribe_pkt_id := 1;
                             unsubscribe_tuples_len := Z.of_nat (length ts);
                             unsubscribe_tuples := ts |}), []).
Proof.
  apply (unpack_mqtt_unsubscribe_decodes (to_byte 162) 1 1
           [{| unsub_topic_len := 3; unsub_topic := bytes_of [97; 47; 98] |};
            {| unsub_topic_len := 0; unsub_topic := [] |}]
           (bytes_of [9]) []).
  - repeat constructor; vm_compute; discriminate.
  - lia.
  - vm_compute. reflexivity.
  - vm_compute. reflexivity.
Defined.

End WellFormedPackets.

Section PublishPackets.

(** X10: a PUBLISH whose Remaining Length is below 2 ^ 16 and covers topic,
    packet id and payload exactly decodes to that topic and that payload;
    the packet id is read when the QoS of the header is above 0 and is 0
    otherwise. *)
Theorem unpack_mqtt_publish_decodes (hdr : mqtt_header) (pkt_id n : Z)
    (topic payload lenb rest : list byte) :
  0 <= pkt_id < 2 ^ 16 ->
  Z.of_nat (length (publish_wire hdr pkt_id topic payload)) < 2 ^ 16 ->
  mqtt_encode_length (Z.of_nat (length (publish_wire hdr pkt_id topic payload)))
  = Some (n, lenb) ->
  unpack_mqtt_publish hdr (lenb ++ publish_wire hdr pkt_id topic payload ++ rest)
  = Done ((Z.of_nat (length (publish_wire hdr pkt_id topic payload)),
           PktPublish
             {| publish_header := hdr;
                publish_pkt_id := if header_qos hdr >? AT_MOST_ONCE
                                  then pkt_id else 0;
                topiclen := Z.of_nat (length topic);
                topic := topic;
                payloadlen := Z.of_nat (length payload);
                payload := payload |}), rest).
Proof.
  intros Hid Hlen Henc.
  assert (HL : 0 <= Z.of_nat (length (publish_wire hdr pkt_id topic payload))
               < 128 ^ 4)
    by (change (128 ^ 4) with 268435456; change (2 ^ 16) with 65536 in Hlen; lia).
  pose proof (encoded_length_decodes _ n lenb HL Henc) as Hdec.
  unfold unpack_mqtt_publish.
  rewrite (bind_Done _ _ _ _ _ (Hdec _)).
  assert (Elen : Z.of_nat (length (publish_wire hdr pkt_id topic payload))
                 = 2 + Z.of_nat (length topic)
                   + Z.of_nat (length (publish_id_wire hdr pkt_id))
                   + Z.of_nat (length payload))
    by (unfold publish_wire; rewrite !length_app; cbn [length pack_u16]; lia).
  clear Henc HL Hdec.
  set (len := Z.of_nat (length (publish_wire hdr pkt_id topic payload))) in *.
  unfold publish_wire. rewrite <- !app_assoc.
  assert (Htl : 0 <= Z.of_nat (length topic) < 2 ^ 16)
    by (change (2 ^ 16) with 65536 in *; lia).
  rewrite (bind_Done _ _ _ _ _ (unpack_u16_pack _ _ Htl)).
  rewrite (bind_Done _ _ _ _ _ (unpack_bytes_app _ _)).
  cbv zeta. unfold publish_id_wire in *.
  destruct (header_qos hdr >? AT_MOST_ONCE).
  - match goal with
    | |- (?m ≫= _) ?buf = _ =>
        assert (Hinner : m buf
                         = Done ((pkt_id, uint16 (uint16 len - 2)), payload ++ rest))
          by (rewrite (bind_Done _ _ _ _ _ (unpack_u16_pack _ _ Hid)); reflexivity)
    end.
    rewrite (bind_Done _ _ _ _ _ Hinner). cbv beta iota.
    cbn [length pack_u16] in Elen.
    replace (uint16 (uint16 (uint16 len - 2) - (2 + Z.of_nat (length topic))))
      with (Z.of_nat (length payload))
      by (unfold uint16, wrap_unsigned; change (2 ^ 16) with 65536 in *;
          Z.div_mod_to_equations; lia).
    rewrite (bind_Done _ _ _ _ _ (unpack_bytes_app _ _)). reflexivity.
  - cbn [app length] in *.
    match goal with
    | |- (?m ≫= _) ?buf = _ =>
        assert (Hinner : m buf = Done ((0, uint16 len), payload ++ rest))
          by reflexivity
    end.
    rewrite (bind_Done _ _ _ _ _ Hinner). cbv beta iota.
    replace (uint16 (uint16 len - (2 + Z.of_nat (length topic))))
      with (Z.of_nat (length payload))
      by (unfold uint16, wrap_unsigned; change (2 ^ 16) with 65536 in *;
          Z.div_mod_to_equations; lia).
    rewrite (bind_Done _ _ _ _ _ (unpack_bytes_app _ _)). reflexivity.
Qed.

Lemma unpack_mqtt_publish_decodes_witness :
  let hdr := to_byte 50 in
  let topic := bytes_of [97; 47; 98] in
  let payload := bytes_of [104; 105] in
  unpack_mqtt_publish hdr
    (bytes_of [9] ++ publish_wire hdr 42 topic payload ++ bytes_of [192; 0])
  = Done ((Z.of_nat (length (publish_wire hdr 42 topic payload)),
           PktPublish
             {| publish_header := hdr;
                publish_pkt_id := if header_qos hdr >? AT_MOST_ONCE then 42 else 0;
                topiclen := Z.of_nat (length topic);
                topic := topic;
                payloadlen := Z.of_nat (length payload);
                payload := payload |}), bytes_of [192; 0]).
Proof.
  apply (unpack_mqtt_publish_decodes (to_byte 50) 42 1 (bytes_of [97; 47; 98])
           (bytes_of [104; 105]) (bytes_of [9]) (bytes_of [192; 0])).
  - lia.
  - vm_compute. reflexivity.
  - vm_compute. reflexivity.
Defined.

(** X11: for every PUBLISH the decoder accepts, whatever its Remaining
    Length, the payload length is the Remaining Length less the variable
    header (topic length field, topic, and packet id when the QoS is above 0)
    taken modulo 2 ^ 16, and the payload is that many bytes. *)
Theorem unpack_mqtt_publish_payload_length_mod (hdr : mqtt_header)
    (raw rest : list byte) (len : Z) (p : mqtt_publish) :
  unpack_mqtt_publish hdr raw = Done ((len, PktPublish p), rest) ->
  payloadlen p
  = (len - (2 + topiclen p) - (if header_qos hdr >? AT_MOST_ONCE then 2 else 0))
      mod 2 ^ 16
  /\ Z.of_nat (length (payload p)) = payloadlen p
  /\ Z.of_nat (length (topic p)) = topiclen p.
Proof.
  intros H. destruct (unpack_mqtt_publish_payloadlen hdr raw rest len p H)
    as (Hpl & Hlen & Htl).
  split; [exact Hpl|]. split; [exact Hlen|].
  unfold unpack_mqtt_publish in H.
  apply bind_Done_inv in H as (len' & b1 & _ & H).
  apply bind_Done_inv in H as (tl & b2 & H16 & H).
  apply bind_Done_inv in H as (tp & b3 & Hbs & H).
  cbv zeta in H.
  apply bind_Done_inv in H as ([pid ml] & b4 & _ & H).
  apply bind_Done_inv in H as (pl & b5 & _ & H).
  injection H as <- <- <-. cbn [topic topiclen].
  apply unpack_u16_Done in H16 as [H16 _].
  apply unpack_bytes_Done in Hbs as [Hbs _]; [exact Hbs | lia].
Qed.

Lemma unpack_mqtt_publish_payload_length_mod_witness :
  let p := {| publish_header := to_byte 48;
              publish_pkt_id := 0;
              topiclen := 1;
              topic := bytes_of [97];
              payloadlen := 2;
              payload := bytes_of [104; 105] |} in
  payloadlen p = (5 - (2 + topiclen p)
                  - (if header_qos (to_byte 48) >? AT_MOST_ONCE then 2 else 0))
                   mod 2 ^ 16
  /\ Z.of_nat (length (payload p)) = payloadlen p
  /\ Z.of_nat (length (topic p)) = topiclen p.
Proof.
  apply (unpack_mqtt_publish_payload_length_mod (to_byte 48)
           (bytes_of [5; 0; 1; 97; 104; 105]) [] 5).
  vm_compute. reflexivity.
Defined.

End PublishPackets.

Section ConnectPackets.

Lemma unpack_field_wire (x rest : list byte) :
  Z.of_nat (length x) < 2 ^ 16 ->
  unpack_field (field_wire x ++ rest) = Done (x, rest).
Proof.
  intros Hx. unfold unpack_field, field_wire. rewrite <- app_assoc.
  assert (Hr : 0 <= Z.of_nat (length x) < 2 ^ 16) by lia.
  rewrite (bind_Done _ _ _ _ _ (unpack_u16_pack _ _ Hr)).
  apply unpack_bytes_app.
Qed.

Lemma bind_assoc {A B C : Type} (m : reader A) (f : A -> reader B)
    (g : B -> reader C) (buf : list byte) :
  ((m ≫= f) ≫= g) buf = (m ≫= (fun a => f a ≫= g)) buf.
Proof.
  unfold mbind, reader_bind. destruct (m buf) as [[a buf']| | |]; reflexivity.
Qed.

Lemma bind_ret {A B : Type} (a : A) (g : A -> reader B) (buf : list byte) :
  (mret a ≫= g) buf = g a buf.
Proof. reflexivity. Qed.

Lemma bind_field {B : Type} (x rest : list byte) (f : list byte -> reader B) :
  Z.of_nat (length x) < 2 ^ 16 ->
  (unpack_field ≫= f) (field_wire x ++ rest) = f x rest.
Proof. intros Hx. apply bind_Done. apply unpack_field_wire. exact Hx. Qed.

(** Runs the first reader of a bind once [tac] has said what it returns. *)
Ltac run_first tac :=
  match goal with
  | |- (?m ≫= _) ?buf = _ =>
      let H := fresh "Hfirst" in
      eassert (H : m buf = Done _) by tac;
      rewrite (bind_Done _ _ _ _ _ H); clear H; cbv beta iota
  end.

(** X12: a CONNECT with a Remaining Length of one byte, seven bytes for
    protocol name and level, then flags, keepalive and the payload fields
    decodes to those fields: the client id first, then will topic and will
    message when the will flag is set, the username when the username flag is
    set, the password when the password flag is set, a field whose flag is
    clear staying NULL.  The Remaining Length is returned and plays no part
    in the decoding. *)
Theorem unpack_mqtt_connect_decodes (hdr : mqtt_header) (l flags : byte)
    (v cid wt wm un pw rest : list byte) (ka : Z) :
  of_byte l < 128 ->
  length v = 7%nat ->
  0 <= ka < 2 ^ 16 ->
  Z.of_nat (length cid) < 2 ^ 16 ->
  Z.of_nat (length wt) < 2 ^ 16 ->
  Z.of_nat (length wm) < 2 ^ 16 ->
  Z.of_nat (length un) < 2 ^ 16 ->
  Z.of_nat (length pw) < 2 ^ 16 ->
  unpack_mqtt_connect hdr
    (l :: v ++ connect_body_wire flags ka cid wt wm un pw ++ rest)
  = Done ((of_byte l,
           PktConnect
             {| connect_header := hdr;
                connect_byte := of_byte flags;
                keepalive := ka;
                client_id := if Z.of_nat (length cid) >? 0 then Some cid else None;
                username := optional_field (bits_username (of_byte flags)) un;
                password := optional_field (bits_password (of_byte flags)) pw;
                will_topic := optional_field (bits_will (of_byte flags)) wt;
                will_message := optional_field (bits_will (of_byte flags)) wm |}),
          rest).
Proof.
  intros Hl Hv Hka Hcid Hwt Hwm Hun Hpw.
  unfold unpack_mqtt_connect.
  run_first ltac:(apply decode_length_single; exact Hl).
  run_first ltac:(reflexivity).
  replace (drop 8 _) with (connect_body_wire flags ka cid wt wm un pw ++ rest)
    by (cbn [drop]; symmetry; apply drop_app_length'; symmetry; exact Hv).
  unfold connect_body_wire, optional_wire, optional_field.
  cbn [app]. rewrite <- !app_assoc.
  run_first ltac:(reflexivity).
  run_first ltac:(apply unpack_u16_pack; exact Hka).
  unfold field_wire at 1. rewrite <- !app_assoc.
  run_first ltac:(apply unpack_u16_pack; lia).
  destruct (Z.gtb_spec (Z.of_nat (length cid)) 0) as [Hpos|Hzero];
    [run_first ltac:(rewrite (bind_Done _ _ _ _ _ (unpack_bytes_app _ _));
                     reflexivity)
    |assert (cid = []) as -> by (destruct cid; [reflexivity | cbn [length] in *; lia]);
     run_first ltac:(reflexivity); cbn [app]].
  all: destruct (bits_will (of_byte flags) =? 1);
    destruct (bits_username (of_byte flags) =? 1);
    destruct (bits_password (of_byte flags) =? 1);
    cbn [app];
    repeat first [ rewrite bind_assoc
                 | rewrite bind_field by assumption
                 | rewrite bind_ret
                 | progress cbv beta iota ];
    reflexivity.
Qed.

Lemma unpack_mqtt_connect_decodes_witness :
  let flags := to_byte 206 in
  unpack_mqtt_connect (to_byte 16)
    (to_byte 0 :: bytes_of [0; 4; 77; 81; 84; 84; 4]
     ++ connect_body_wire flags 60 (bytes_of [65]) (bytes_of [100]) (bytes_of [98; 121])
          (bytes_of [117]) (bytes_of [112; 119]) ++ bytes_of [192; 0])
  = Done ((of_byte (to_byte 0),
           PktConnect
             {| connect_header := to_byte 16;
                connect_byte := of_byte flags;
                keepalive := 60;
                client_id := if Z.of_nat (length (bytes_of [65])) >? 0
                             then Some (bytes_of [65]) else None;
                username := optional_field (bits_username (of_byte flags))
                              (bytes_of [117]);
                password := optional_field (bits_password (of_byte flags))
                              (bytes_of [112; 119]);
                will_topic := optional_field (bits_will (of_byte flags))
                                (bytes_of [100]);
                will_message := optional_field (bits_will (of_byte flags))
                                  (bytes_of [98; 121]) |}),
          bytes_of [192; 0]).
Proof.
  apply (unpack_mqtt_connect_decodes (to_byte 16) (to_byte 0) (to_byte 206)
           (bytes_of [0; 4; 77; 81; 84; 84; 4]) (bytes_of [65]) (bytes_of [100])
           (bytes_of [98; 121]) (bytes_of [117]) (bytes_of [112; 119])
           (bytes_of [192; 0]) 60);
    try lia; vm_compute; reflexivity.
Defined.

End ConnectPackets.

(** ** What [unpack_mqtt_packet] hands back *)

Section PacketResult.

(** The entries of the handler table that hold a handler. *)
Lemma unpack_handlers_entries (i : nat) (handler : mqtt_unpack_handler) :
  unpack_handlers !! i = Some (Some handler) ->
  (i = 1%nat /\ handler = unpack_mqtt_connect)
  \/ (i = 3%nat /\ handler = unpack_mqtt_publish)
  \/ ((i = 4%nat \/ i = 5%nat \/ i = 6%nat \/ i = 7%nat)
      /\ handler = unpack_mqtt_ack)
  \/ (i = 8%nat /\ handler = unpack_mqtt_subscribe)
  \/ (i = 10%nat /\ handler = unpack_mqtt_unsubscribe).
Proof.
  unfold unpack_handlers.
  do 11 (destruct i as [|i];
         [cbn; intros Hh; try discriminate Hh; injection Hh as <-;
          solve [intuition]|]).
  cbn. discriminate.
Qed.

(** Peels the binds off a handler that returned. *)
Ltac peel_binds H :=
  repeat match type of H with
    | (_ ≫= _) _ = Done _ =>
        let a := fresh "a" in
        let b := fresh "b" in
        let Ha := fresh "Ha" in
        apply bind_Done_inv in H as (a & b & Ha & H);
        try match type of H with
          | context [let '(_, _) := ?p in _] => destruct p
          end
    end.

(** Each handler returns the Remaining Length it decoded first, and writes
    its own member of the union with the header it was given. *)
Lemma handler_result (i : nat) (handler : mqtt_unpack_handler) (hdr : mqtt_header)
    (raw rest : list byte) (len : Z) (pkt : mqtt_packet) :
  unpack_handlers !! i = Some (Some handler) ->
  handler hdr raw = Done ((len, pkt), rest) ->
  (exists r, mqtt_decode_length raw = Done (len, r))
  /\ packet_header pkt = hdr
  /\ packet_matches_type (Z.of_nat i) pkt = true.
Proof.
  intros Hh H. apply unpack_handlers_entries in Hh.
  destruct Hh as [[-> ->]|[[-> ->]|[[Hi ->]|[[-> ->]|[-> ->]]]]].
  - unfold unpack_mqtt_connect in H.
    apply bind_Done_inv in H as (len' & b1 & Hlen & H). peel_binds H.
    injection H as <- <- <-. split; [eexists; exact Hlen | split; reflexivity].
  - unfold unpack_mqtt_publish in H.
    apply bind_Done_inv in H as (len' & b1 & Hlen & H). cbv zeta in H. peel_binds H.
    injection H as <- <- <-. split; [eexists; exact Hlen | split; reflexivity].
  - unfold unpack_mqtt_ack in H.
    apply bind_Done_inv in H as (len' & b1 & Hlen & H). peel_binds H.
    injection H as <- <- <-. split; [eexists; exact Hlen |].
    split; [reflexivity|]. destruct Hi as [->|[->|[->| ->]]]; reflexivity.
  - unfold unpack_mqtt_subscribe in H.
    apply bind_Done_inv in H as (len' & b1 & Hlen & H). cbv zeta in H. peel_binds H.
    injection H as <- <- <-. split; [eexists; exact Hlen | split; reflexivity].
  - unfold unpack_mqtt_unsubscribe in H.
    apply bind_Done_inv in H as (len' & b1 & Hlen & H). cbv zeta in H. peel_binds H.
    injection H as <- <- <-. split; [eexists; exact Hlen | split; reflexivity].
Qed.



End PacketResult.

(** ** What a returned packet says about the bytes it was read from *)

Section Soundness.

(** The length bytes the decoder consumed are a prefix of the buffer. *)
Lemma decode_length_loop_prefix (buf rest : list byte) :
  forall m v x,
    decode_length_loop m v buf = Done (x, rest) ->
    exists lenb, buf = lenb ++ rest /\ lenb <> [].
Proof.
  induction buf as [|b buf IH]; intros m v x; cbn [decode_length_loop].
  - discriminate.
  - destruct (negb (Z.land (of_char b) 128 =? 0)).
    + intros H. apply IH in H as (lenb & -> & _).
      exists (b :: lenb). split; [reflexivity | discriminate].
    + intros H. injection H as _ <-. exists [b]. split; [reflexivity | discriminate].
Qed.

(** The length the decoder returns is an [unsigned long long]. *)
Lemma decode_length_loop_range (buf rest : list byte) (m v x : Z) :
  decode_length_loop m v buf = Done (x, rest) -> 0 <= x < 2 ^ 64.
Proof.
  revert m v. induction buf as [|b buf IH]; intros m v;
    cbn [decode_length_loop]; [discriminate|].
  destruct (negb (Z.land (of_char b) 128 =? 0)); [apply IH|].
  intros H. injection H as <- _. apply uint64_range.
Qed.

(** X14: when [unpack_mqtt_subscribe] returns, the buffer was the length
    bytes, the packet id and the bytes of exactly the tuples it returns,
    followed by what it left; the Remaining Length it returns is 2 plus the
    sizes of those tuples, and the tuple count is their number. *)
Theorem unpack_mqtt_subscribe_sound (hdr : mqtt_header) (raw rest : list byte)
    (len : Z) (s : mqtt_subscribe) :
  Z.of_nat (length raw) < 2 ^ 63 ->
  unpack_mqtt_subscribe hdr raw = Done ((len, PktSubscribe s), rest) ->
  exists lenb,
    raw = lenb ++ pack_u16 (subscribe_pkt_id s)
          ++ subscribe_tuples_wire (subscribe_tuples s) ++ rest
    /\ mqtt_decode_length raw
       = Done (len, pack_u16 (subscribe_pkt_id s)
                    ++ subscribe_tuples_wire (subscribe_tuples s) ++ rest)
    /\ len = 2 + subscribe_tuples_size (subscribe_tuples s)
    /\ Forall subscribe_tuple_ok (subscribe_tuples s)
    /\ subscribe_tuples_len s = Z.of_nat (length (subscribe_tuples s))
    /\ subscribe_header s = hdr.
Proof.
  intros Hraw H. unfold unpack_mqtt_subscribe in H.
  apply bind_Done_inv in H as (len' & b1 & Hlen & H). cbv zeta in H.
  apply bind_Done_inv in H as (pid & b2 & Hid & H).
  apply bind_Done_inv in H as (ts & b3 & Hloop & H).
  injection H as <- <- <-. cbn [subscribe_pkt_id subscribe_tuples
                                 subscribe_tuples_len subscribe_header].
  pose proof Hlen as Hpre. apply decode_length_loop_prefix in Hpre as (lenb & -> & _).
  apply unpack_u16_Done in Hid as [Hid ->].
  rewrite !length_app in Hraw. cbn [length pack_u16] in Hraw.
  pose proof (uint64_range (len' - 2)) as Hrb.
  apply subscribe_loop_Done in Hloop as (new & -> & -> & Hsize & Hok);
    [|exact Hrb|lia].
  cbn [app] in *. exists lenb.
  split; [reflexivity|]. split; [exact Hlen|].
  split; [|split; [exact Hok | split; reflexivity]].
  pose proof (subscribe_tuples_size_length new Hok) as Hl.
  rewrite length_app in Hraw.
  pose proof (decode_length_loop_range _ _ _ _ _ Hlen) as Hlen64.
  revert Hsize. unfold uint64, wrap_unsigned.
  change (2 ^ 64) with 18446744073709551616 in *.
  change (2 ^ 63) with 9223372036854775808 in *.
  intros Hsize. Z.div_mod_to_equations. lia.
Qed.

Lemma unpack_mqtt_subscribe_sound_witness :
  let s := {| subscribe_header := to_byte 130;
              subscribe_pkt_id := 1;
              subscribe_tuples_len := 1;
              subscribe_tuples :=
                [{| sub_topic_len := 1; sub_topic := bytes_of [97]; sub_qos := 3 |}] |} in
  exists lenb,
    bytes_of [6; 0; 1; 0; 1; 97; 3; 192; 0]
    = lenb ++ pack_u16 (subscribe_pkt_id s)
      ++ subscribe_tuples_wire (subscribe_tuples s) ++ bytes_of [192; 0]
    /\ mqtt_decode_length (bytes_of [6; 0; 1; 0; 1; 97; 3; 192; 0])
       = Done (6, pack_u16 (subscribe_pkt_id s)
                  ++ subscribe_tuples_wire (subscribe_tuples s) ++ bytes_of [192; 0])
    /\ 6 = 2 + subscribe_tuples_size (subscribe_tuples s)
    /\ Forall subscribe_tuple_ok (subscribe_tuples s)
    /\ subscribe_tuples_len s = Z.of_nat (length (subscribe_tuples s))
    /\ subscribe_header s = to_byte 130.
Proof.
  apply (unpack_mqtt_subscribe_sound (to_byte 130)
           (bytes_of [6; 0; 1; 0; 1; 97; 3; 192; 0]) (bytes_of [192; 0]) 6).
  - vm_compute. reflexivity.
  - vm_compute. reflexivity.
Defined.

(** X15: the same for [unpack_mqtt_unsubscribe]: when it returns, the buffer
    was the length bytes, the packet id and the bytes of exactly the topic
    filters it returns, followed by what it left, and the Remaining Length is
    2 plus their sizes. *)
Theorem unpack_mqtt_unsubscribe_sound (hdr : mqtt_header) (raw rest : list byte)
    (len : Z) (u : mqtt_unsubscribe) :
  Z.of_nat (length raw) < 2 ^ 63 ->
  unpack_mqtt_unsubscribe hdr raw = Done ((len, PktUnsubscribe u), rest) ->
  exists lenb,
    raw = lenb ++ pack_u16 (unsubscribe_pkt_id u)
          ++ unsubscribe_tuples_wire (unsubscribe_tuples u) ++ rest
    /\ mqtt_decode_length raw
       = Done (len, pack_u16 (unsubscribe_pkt_id u)
                    ++ unsubscribe_tuples_wire (unsubscribe_tuples u) ++ rest)
    /\ len = 2 + unsubscribe_tuples_size (unsubscribe_tuples u)
    /\ Forall unsubscribe_tuple_ok (unsubscribe_tuples u)
    /\ unsubscribe_tuples_len u = Z.of_nat (length (unsubscribe_tuples u))
    /\ unsubscribe_header u = hdr.
Proof.
  intros Hraw H. unfold unpack_mqtt_unsubscribe in H.
  apply bind_Done_inv in H as (len' & b1 & Hlen & H). cbv zeta in H.
  apply bind_Done_inv in H as (pid & b2 & Hid & H).
  apply bind_Done_inv in H as (ts & b3 & Hloop & H).
  injection H as <- <- <-. cbn [unsubscribe_pkt_id unsubscribe_tuples
                                 unsubscribe_tuples_len unsubscribe_header].
  pose proof Hlen as Hpre. apply decode_length_loop_prefix in Hpre as (lenb & -> & _).
  apply unpack_u16_Done in Hid as [Hid ->].
  rewrite !length_app in Hraw. cbn [length pack_u16] in Hraw.
  pose proof (uint64_range (len' - 2)) as Hrb.
  apply unsubscribe_loop_Done in Hloop as (new & -> & -> & Hsize & Hok);
    [|exact Hrb|lia].
  cbn [app] in *. exists lenb.
  split; [reflexivity|]. split; [exact Hlen|].
  split; [|split; [exact Hok | split; reflexivity]].
  pose proof (unsubscribe_tuples_size_length new Hok) as Hl.
  rewrite length_app in Hraw.
  pose proof (decode_length_loop_range _ _ _ _ _ Hlen) as Hlen64.
  revert Hsize. unfold uint64, wrap_unsigned.
  change (2 ^ 64) with 18446744073709551616 in *.
  change (2 ^ 63) with 9223372036854775808 in *.
  intros Hsize. Z.div_mod_to_equations. lia.
Qed.

Lemma unpack_mqtt_unsubscribe_sound_witness :
  let u := {| unsubscribe_header := to_byte 162;
              unsubscribe_pkt_id := 1;
              unsubscribe_tuples_len := 1;
              unsubscribe_tuples :=
                [{| unsub_topic_len := 1; unsub_topic := bytes_of [97] |}] |} in
  exists lenb,
    bytes_of [5; 0; 1; 0; 1; 97; 192; 0]
    = lenb ++ pack_u16 (unsubscribe_pkt_id u)
      ++ unsubscribe_tuples_wire (unsubscribe_tuples u) ++ bytes_of [192; 0]
    /\ mqtt_decode_length (bytes_of [5; 0; 1; 0; 1; 97; 192; 0])
       = Done (5, pack_u16 (unsubscribe_pkt_id u)
                  ++ unsubscribe_tuples_wire (unsubscribe_tuples u)
                  ++ bytes_of [192; 0])
    /\ 5 = 2 + unsubscribe_tuples_size (unsubscribe_tuples u)
    /\ Forall unsubscribe_tuple_ok (unsubscribe_tuples u)
    /\ unsubscribe_tuples_len u = Z.of_nat (length (unsubscribe_tuples u))
    /\ unsubscribe_header u = to_byte 162.
Proof.
  apply (unpack_mqtt_unsubscribe_sound (to_byte 162)
           (bytes_of [5; 0; 1; 0; 1; 97; 192; 0]) (bytes_of [192; 0]) 5).
  - vm_compute. reflexivity.
  - vm_compute. reflexivity.
Defined.

(** X16: a SUBSCRIBE or UNSUBSCRIBE whose Remaining Length is 0 or 1 is
    never decoded: taking the two bytes of the packet id off the counter
    wraps it around, and the decoder reads on until the reads leave the
    buffer. *)
Theorem tuple_decoders_short_remaining_length (hdr : mqtt_header)
    (raw r : list byte) (len : Z) :
  Z.of_nat (length raw) < 2 ^ 63 ->
  mqtt_decode_length raw = Done (len, r) ->
  len < 2 ->
  unpack_mqtt_subscribe hdr raw = Fail ShortBuffer
  /\ unpack_mqtt_unsubscribe hdr raw = Fail ShortBuffer.
Proof.
  intros Hraw Hlen Hshort.
  pose proof (decode_length_loop_range _ _ _ _ _ Hlen) as Hlen64.
  pose proof (decode_length_loop_shrinks _ _ _ _ _ Hlen) as Hshrink.
  assert (Hrb : 2 ^ 63 <= uint64 (len - 2) < 2 ^ 64).
  { unfold uint64, wrap_unsigned.
    change (2 ^ 64) with 18446744073709551616 in *.
    change (2 ^ 63) with 9223372036854775808.
    Z.div_mod_to_equations. lia. }
  split.
  - unfold unpack_mqtt_subscribe.
    rewrite (bind_Done _ _ _ _ _ Hlen). cbv zeta.
    unfold mbind at 1, reader_bind at 1.
    destruct (unpack_u16 r) as [[pid b2]|e| |] eqn:Hid;
      try (destruct r as [|? [|? ?]]; discriminate).
    2: { apply unpack_u16_Fail in Hid as [-> _]. reflexivity. }
    apply unpack_u16_Done in Hid as [_ ->].
    rewrite length_app in Hshrink. cbn [length pack_u16] in Hshrink.
    unfold mbind, reader_bind.
    destruct (subscribe_loop_outcome (length raw) (uint64 (len - 2)) [] b2)
      as [(ts & rest & Hdone)| ->]; [lia| |reflexivity].
    exfalso. apply subscribe_loop_Done in Hdone as (new & _ & -> & Hsize & Hok);
      [|lia|lia].
    pose proof (subscribe_tuples_size_length new Hok) as Hl.
    rewrite length_app in Hshrink. lia.
  - unfold unpack_mqtt_unsubscribe.
    rewrite (bind_Done _ _ _ _ _ Hlen). cbv zeta.
    unfold mbind at 1, reader_bind at 1.
    destruct (unpack_u16 r) as [[pid b2]|e| |] eqn:Hid;
      try (destruct r as [|? [|? ?]]; discriminate).
    2: { apply unpack_u16_Fail in Hid as [-> _]. reflexivity. }
    apply unpack_u16_Done in Hid as [_ ->].
    rewrite length_app in Hshrink. cbn [length pack_u16] in Hshrink.
    unfold mbind, reader_bind.
    destruct (unsubscribe_loop_outcome (length raw) (uint64 (len - 2)) [] b2)
      as [(ts & rest & Hdone)| ->]; [lia| |reflexivity].
    exfalso. apply unsubscribe_loop_Done in Hdone as (new & _ & -> & Hsize & Hok);
      [|lia|lia].
    pose proof (unsubscribe_tuples_size_length new Hok) as Hl.
    rewrite length_app in Hshrink. lia.
Qed.

Lemma tuple_decoders_short_remaining_length_witness :
  unpack_mqtt_subscribe (to_byte 130) (bytes_of [1; 0; 1; 0; 0; 0]) = Fail ShortBuffer
  /\ unpack_mqtt_unsubscribe (to_byte 130) (bytes_of [1; 0; 1; 0; 0; 0])
     = Fail ShortBuffer.
Proof.
  apply (tuple_decoders_short_remaining_length (to_byte 130)
           (bytes_of [1; 0; 1; 0; 0; 0]) (bytes_of [0; 1; 0; 0; 0]) 1).
  - vm_compute. reflexivity.
  - vm_compute. reflexivity.
  - lia.
Defined.

End Soundness.

Section PublishSoundness.

(** X17: when [unpack_mqtt_publish] returns, the buffer was the length
    bytes, then the topic with its length in front, the packet id when the
    QoS of the header is above 0, and the payload, followed by what the
    decoder left: topic and payload are the bytes of the packet, in their
    order, and without a packet id on the wire the packet id is 0. *)
Theorem unpack_mqtt_publish_sound (hdr : mqtt_header) (raw rest : list byte)
    (len : Z) (p : mqtt_publish) :
  unpack_mqtt_publish hdr raw = Done ((len, PktPublish p), rest) ->
  exists lenb,
    raw = lenb ++ publish_wire hdr (publish_pkt_id p) (topic p) (payload p) ++ rest
    /\ mqtt_decode_length raw
       = Done (len, publish_wire hdr (publish_pkt_id p) (topic p) (payload p) ++ rest)
    /\ publish_header p = hdr
    /\ topiclen p = Z.of_nat (length (topic p))
    /\ 0 <= publish_pkt_id p < 2 ^ 16
    /\ (header_qos hdr <= AT_MOST_ONCE -> publish_pkt_id p = 0).
Proof.
  unfold unpack_mqtt_publish. intros H.
  apply bind_Done_inv in H as (len' & b1 & Hlen & H).
  apply bind_Done_inv in H as (tl & b2 & H16 & H).
  apply bind_Done_inv in H as (tp & b3 & Hbs & H).
  cbv zeta in H.
  apply bind_Done_inv in H as ([pid ml] & b4 & Hq & H).
  apply bind_Done_inv in H as (pl & b5 & Hpl & H).
  injection H as <- <- <-.
  cbn [publish_pkt_id topic payload publish_header topiclen].
  pose proof Hlen as Hpre. apply decode_length_loop_prefix in Hpre as (lenb & -> & _).
  apply unpack_u16_Done in H16 as [Htl ->].
  apply unpack_bytes_Done in Hbs as [Htp ->]; [|lia].
  apply unpack_bytes_Done in Hpl as [_ ->];
    [|unfold uint16, wrap_unsigned; apply Z.mod_pos_bound; lia].
  exists lenb. unfold publish_wire, publish_id_wire. rewrite Htp.
  destruct (Z.gtb_spec (header_qos hdr) AT_MOST_ONCE) as [Hqos|Hqos].
  - apply bind_Done_inv in Hq as (pid' & b6 & Hid & Hq).
    injection Hq as <- _ ->.
    apply unpack_u16_Done in Hid as [Hid ->].
    rewrite <- !app_assoc in *.
    repeat split; try (exact Hlen || lia).
  - injection Hq as <- _ ->. cbn [app].
    rewrite <- !app_assoc in *.
    repeat split; try (exact Hlen || reflexivity || lia).
Qed.

Lemma unpack_mqtt_publish_sound_witness :
  let p := {| publish_header := to_byte 50;
              publish_pkt_id := 42;
              topiclen := 1;
              topic := bytes_of [97];
              payloadlen := 2;
              payload := bytes_of [104; 105] |} in
  exists lenb,
    bytes_of [7; 0; 1; 97; 0; 42; 104; 105; 192]
    = lenb ++ publish_wire (to_byte 50) (publish_pkt_id p) (topic p) (payload p)
      ++ bytes_of [192]
    /\ mqtt_decode_length (bytes_of [7; 0; 1; 97; 0; 42; 104; 105; 192])
       = Done (7, publish_wire (to_byte 50) (publish_pkt_id p) (topic p) (payload p)
                  ++ bytes_of [192])
    /\ publish_header p = to_byte 50
    /\ topiclen p = Z.of_nat (length (topic p))
    /\ 0 <= publish_pkt_id p < 2 ^ 16
    /\ (header_qos (to_byte 50) <= AT_MOST_ONCE -> publish_pkt_id p = 0).
Proof.
  apply (unpack_mqtt_publish_sound (to_byte 50)
           (bytes_of [7; 0; 1; 97; 0; 42; 104; 105; 192]) (bytes_of [192]) 7).
  vm_compute. reflexivity.
Defined.

End PublishSoundness.
